(** * sutil::value_ptr — a cloning smart pointer (value_ptr/value_ptr.hpp)

    A [value_ptr<T, ClonerT, DeleterT>] stores a tuple
    [std::tuple<T*, ClonerT, DeleterT> m_]: the owned raw pointer, a cloner
    and a deleter.  Member functions read and write that tuple in place and
    call the two policy objects; the cloner may throw.

    The embedding keeps
    - the free store as a finite map from addresses to pointee values,
    - the [value_ptr] instances in a store indexed by object identity, so
      that two references to one instance (as in [v = std::move(v)]) are one
      entry of the store,
    - a log of every policy invocation, in program order,
    and writes each member function as a computation in a small
    state-and-exception monad over these three. *)

From stdpp Require Import gmap list.

(** Raw pointers [T*] are addresses; address [0] is [nullptr]. *)
Abbreviation pointer := N (only parsing).
Definition nullptr : pointer := 0%N.

(** ** The two policies *)

(** What a call [c(p)] of a cloner does: it returns a pointer, or it throws;
    either way it may have changed the free store.  [CloneUndef] stands for
    a call with no defined behaviour (a cloner handed a dangling pointer). *)
Inductive clone_result (T : Type) : Type :=
| CloneRet (p : pointer) (h : gmap N T)
| CloneThrow (h : gmap N T)
| CloneUndef.
Arguments CloneRet {T} p h.
Arguments CloneThrow {T} h.
Arguments CloneUndef {T}.

(** [ClonerT]: default constructible ([cloner_type()]), callable on a [T*]
    through a const reference, assignable; [cloner_moved c] is the state an
    object holding [c] is left in after [std::move] took its value for
    another object, and [cloner_self_moved c] the state after the
    self-move-assignment [x = std::move(x)] of an object [x] holding [c]. *)
Class Cloner (T C : Type) : Type := {
  cloner_init : C;
  cloner_call : C -> pointer -> gmap N T -> clone_result T;
  cloner_moved : C -> C;
  cloner_self_moved : C -> C
}.

(** [DeleterT]: default constructible ([deleter_type()]), callable on a
    [T*], assignable; a deleter call is required not to throw.
    [deleter_moved] and [deleter_self_moved] are as for the cloner. *)
Class Deleter (T D : Type) : Type := {
  deleter_init : D;
  deleter_call : D -> pointer -> gmap N T -> gmap N T;
  deleter_moved : D -> D;
  deleter_self_moved : D -> D
}.

Section value_ptr.
Context {T ClonerT DeleterT : Type}.
Context `{!Cloner T ClonerT, !Deleter T DeleterT}.

(** [std::tuple <T*, ClonerT, DeleterT> m_]; [m_0], [m_1], [m_2] are
    [std::get<0>(m_)], [std::get<1>(m_)], [std::get<2>(m_)]. *)
Record value_ptr : Type := tuple {
  m_0 : pointer;
  m_1 : ClonerT;
  m_2 : DeleterT
}.

(** One entry per call of a policy object. *)
Inductive event : Type :=
| CloneCall (c : ClonerT) (p : pointer)
| DeleteCall (d : DeleterT) (p : pointer).

Record state : Type := State {
  objs : gmap nat value_ptr;   (* the live value_ptr instances *)
  heap : gmap N T;             (* the live pointees *)
  trace : list event           (* policy calls so far *)
}.

(** ** State and exception monad *)

Inductive outcome (A : Type) : Type :=
| Ret (a : A) (s : state)      (* normal return *)
| Throw (s : state)            (* an exception leaves the function *)
| Undef.                       (* undefined behaviour *)
Arguments Ret {A} a s.
Arguments Throw {A} s.
Arguments Undef {A}.

Definition M (A : Type) : Type := state -> outcome A.

Definition ret {A} (a : A) : M A := fun s => Ret a s.

Definition bind {A B} (m : M A) (k : A -> M B) : M B :=
  fun s =>
    match m s with
    | Ret a s' => k a s'
    | Throw s' => Throw s'
    | Undef => Undef
    end.

Notation "x <- m ;; k" := (bind m (fun x => k))
  (at level 100, m at next level, right associativity).
Notation "m ;;; k" := (bind m (fun _ => k))
  (at level 100, right associativity).

(** Stack unwinding: [h] runs on the state an exception carries. *)
Definition unwinding {A} (m : M A) (h : state -> state) : M A :=
  fun s =>
    match m s with
    | Throw s' => Throw (h s')
    | o => o
    end.

(** ** Access to an instance and to the free store *)

(** The instance a reference denotes; a reference to no instance is
    undefined. *)
Definition self (this : nat) : M value_ptr :=
  fun s =>
    match objs s !! this with
    | Some v => Ret v s
    | None => Undef
    end.

Definition put (this : nat) (v : value_ptr) : M unit :=
  fun s => Ret tt (State (<[this := v]> (objs s)) (heap s) (trace s)).

(** The storage of an instance goes away. *)
Definition drop (this : nat) : state -> state :=
  fun s => State (delete this (objs s)) (heap s) (trace s).

(** [c(p)], logged. *)
Definition invoke_cloner (c : ClonerT) (p : pointer) : M pointer :=
  fun s =>
    let t := trace s ++ [CloneCall c p] in
    match cloner_call c p (heap s) with
    | CloneRet q h => Ret q (State (objs s) h t)
    | CloneThrow h => Throw (State (objs s) h t)
    | CloneUndef => Undef
    end.

(** [d(p)], logged. *)
Definition invoke_deleter (d : DeleterT) (p : pointer) : M unit :=
  fun s =>
    Ret tt (State (objs s) (deleter_call d p (heap s))
                  (trace s ++ [DeleteCall d p])).

(** ** Member functions *)

(** [pointer get() const] *)
Definition get (this : nat) : M pointer :=
  v <- self this ;; ret (m_0 v).

(** [get_deleter()] read, and [get_deleter() = d]. *)
Definition get_deleter (this : nat) : M DeleterT :=
  v <- self this ;; ret (m_2 v).

Definition set_deleter (this : nat) (d : DeleterT) : M unit :=
  v <- self this ;; put this (tuple (m_0 v) (m_1 v) d).

(** [get_cloner()] read, and [get_cloner() = c]. *)
Definition get_cloner (this : nat) : M ClonerT :=
  v <- self this ;; ret (m_1 v).

Definition set_cloner (this : nat) (c : ClonerT) : M unit :=
  v <- self this ;; put this (tuple (m_0 v) c (m_2 v)).

(** [std::get <0> (m_) = p] *)
Definition set_0 (this : nat) (p : pointer) : M unit :=
  v <- self this ;; put this (tuple p (m_1 v) (m_2 v)).

(** [explicit operator bool() const] *)
Definition operator_bool (this : nat) : M bool :=
  p <- get this ;;
  ret (if decide (p = nullptr) then false else true).

(** [pointer clone() const] *)
Definition clone (this : nat) : M pointer :=
  b <- operator_bool this ;;
  if b : bool then
    c <- get_cloner this ;;
    p <- get this ;;
    invoke_cloner c p
  else ret nullptr.

(** [void reset(pointer p = pointer())] *)
Definition reset (this : nat) (p : pointer) : M unit :=
  q <- get this ;;
  if decide (p <> q) then
    d <- get_deleter this ;;
    held <- get this ;;
    invoke_deleter d held ;;;
    set_0 this p
  else ret tt.

(** [pointer release()] *)
Definition release (this : nat) : M pointer :=
  p <- get this ;;
  set_0 this nullptr ;;;
  ret p.

(** [~value_ptr()]: the body, then the storage ends. *)
Definition destructor (this : nat) : M unit :=
  reset this nullptr ;;;
  fun s => Ret tt (drop this s).

(** Constructors with a member initialiser [m_(ptr, c, d)]. *)
Definition construct (this : nat) (ptr : pointer) (c : ClonerT)
    (d : DeleterT) : M unit :=
  put this (tuple ptr c d).

(** [value_ptr()], [value_ptr(std::nullptr_t)], [value_ptr(T* ptr)] *)
Definition value_ptr_default (this : nat) : M unit :=
  construct this nullptr cloner_init deleter_init.

Definition value_ptr_null (this : nat) : M unit :=
  construct this nullptr cloner_init deleter_init.

Definition value_ptr_from (this : nat) (ptr : pointer) : M unit :=
  construct this ptr cloner_init deleter_init.

(** [value_ptr(T* ptr, d)], [value_ptr(T* ptr, c)],
    [value_ptr(T* ptr, d, c)] *)
Definition value_ptr_deleter (this : nat) (ptr : pointer) (d : DeleterT)
    : M unit :=
  construct this ptr cloner_init d.

Definition value_ptr_cloner (this : nat) (ptr : pointer) (c : ClonerT)
    : M unit :=
  construct this ptr c deleter_init.

Definition value_ptr_both (this : nat) (ptr : pointer) (d : DeleterT)
    (c : ClonerT) : M unit :=
  construct this ptr c d.

(** Constructors without a member initialiser start from the
    value-initialised tuple. *)
Definition m_default : value_ptr := tuple nullptr cloner_init deleter_init.

(** [value_ptr(value_ptr const& v)]: when [v.clone()] throws, the
    constructor is left, the tuple member is destroyed (which calls no
    policy) and no instance comes to exist. *)
Definition value_ptr_copy (this v : nat) : M unit :=
  put this m_default ;;;
  unwinding
    (p <- clone v ;;
     reset this p ;;;
     d <- get_deleter v ;;
     set_deleter this d ;;;
     c <- get_cloner v ;;
     set_cloner this c)
    (drop this).

(** [value_ptr& operator=(value_ptr const& v)] *)
Definition assign_copy (this v : nat) : M unit :=
  p <- clone v ;;
  reset this p ;;;
  d <- get_deleter v ;;
  set_deleter this d ;;;
  c <- get_cloner v ;;
  set_cloner this c.

(** [get_deleter() = std::move(v.get_deleter())]: the move assignment of
    the deleter is handed two references.  Between two instances the
    target's deleter takes the value and the source's is left moved from;
    when [this] and [v] are one instance, the two references are to one
    deleter and the assignment is its self-move-assignment. *)
Definition move_assign_deleter (this v : nat) : M unit :=
  d <- get_deleter v ;;
  if decide (this = v) then set_deleter this (deleter_self_moved d)
  else (set_deleter this d ;;; set_deleter v (deleter_moved d)).

(** [get_cloner() = std::move(v.get_cloner())], likewise. *)
Definition move_assign_cloner (this v : nat) : M unit :=
  c <- get_cloner v ;;
  if decide (this = v) then set_cloner this (cloner_self_moved c)
  else (set_cloner this c ;;; set_cloner v (cloner_moved c)).

(** [value_ptr& operator=(value_ptr&& v)] *)
Definition assign_move (this v : nat) : M unit :=
  p <- release v ;;
  reset this p ;;;
  move_assign_deleter this v ;;;
  move_assign_cloner this v.

(* The move constructor [value_ptr(value_ptr&& v)] has the body
    [reset(); m_ = std::move(v);].  Its assignment has the tuple [m_] on
    the left and the instance [v], not [v]'s tuple, on the right;
    [std::tuple] has no assignment from a [value_ptr], so the body is
    ill-formed, a program that move-constructs is not compiled, and there is
    no behaviour to embed. *)

(** [void swap(value_ptr&& v)] *)
Definition swap (this v : nat) : M unit :=
  a <- self this ;;
  b <- self v ;;
  put this b ;;;
  put v a.

(** [operator*()]: the lvalue [*get()]; there is none when [get()] is
    null or names no live object (the assertion is commented out). *)
Definition operator_star (this : nat) : M pointer :=
  p <- get this ;;
  fun s =>
    if decide (p = nullptr) then Undef
    else match heap s !! p with
         | Some _ => Ret p s
         | None => Undef
         end.

(** Reading and assigning through an lvalue of type [T]. *)
Definition load (l : pointer) : M T :=
  fun s =>
    match heap s !! l with
    | Some x => Ret x s
    | None => Undef
    end.

Definition store (l : pointer) (x : T) : M unit :=
  fun s =>
    match heap s !! l with
    | Some _ => Ret tt (State (objs s) (<[l := x]> (heap s)) (trace s))
    | None => Undef
    end.

End value_ptr.

Arguments value_ptr : clear implicits.
Arguments event : clear implicits.
Arguments state : clear implicits.
Arguments outcome : clear implicits.
Arguments M : clear implicits.
Arguments Ret {T ClonerT DeleterT A} a s.
Arguments Throw {T ClonerT DeleterT A} s.
Arguments Undef {T ClonerT DeleterT A}.

(** ** What the policies owe the pointer *)

Section contracts.
Context {T ClonerT DeleterT : Type}.
Context `{!Cloner T ClonerT, !Deleter T DeleterT}.

(** A cloner honours its contract when, called on a live object, it
    returns a new non-null address holding an equal value and touches
    nothing else, or throws and leaves the free store as it was. *)
Definition honours_clone (c : ClonerT) : Prop :=
  forall (p : pointer) (x : T) (h : gmap N T),
    h !! p = Some x ->
    match cloner_call c p h with
    | CloneRet q h' => q <> nullptr /\ h !! q = None /\ h' = <[q := x]> h
    | CloneThrow h' => h' = h
    | CloneUndef => False
    end.

(** A deleter accepts a null pointer as a no-op. *)
Definition accepts_null (d : DeleterT) : Prop :=
  forall h : gmap N T, deleter_call d nullptr h = h.

(** A deleter frees exactly the object it is handed. *)
Definition frees (d : DeleterT) : Prop :=
  forall (p : pointer) (h : gmap N T),
    p <> nullptr -> deleter_call d p h = delete p h.
End contracts.

(** ** Ownership *)

Section ownership.
Context {T ClonerT DeleterT : Type}.
Context `{!Cloner T ClonerT, !Deleter T DeleterT}.

(** [pointer operator->() const] *)
Definition operator_arrow (this : nat) : M T ClonerT DeleterT pointer :=
  get this.

(** No two instances hold the same non-null pointer. *)
Definition exclusive (s : state T ClonerT DeleterT) : Prop :=
  forall i j vi vj,
    objs s !! i = Some vi -> objs s !! j = Some vj ->
    m_0 vi <> nullptr -> m_0 vi = m_0 vj -> i = j.

(** Every non-null pointer an instance holds names a live object. *)
Definition all_live (s : state T ClonerT DeleterT) : Prop :=
  forall i v,
    objs s !! i = Some v -> m_0 v <> nullptr -> is_Some (heap s !! m_0 v).

Definition well_owned (s : state T ClonerT DeleterT) : Prop :=
  exclusive s /\ all_live s.

(** No instance holds [p]. *)
Definition unowned (s : state T ClonerT DeleterT) (p : pointer) : Prop :=
  forall j vj, objs s !! j = Some vj -> m_0 vj <> p.

(** The deleter calls in a log, in order. *)
Definition deleted (t : list (event ClonerT DeleterT)) : list pointer :=
  omap (fun e => match e with
                 | DeleteCall _ p => Some p
                 | CloneCall _ _ => None
                 end) t.
End ownership.

(** ** The default policies *)

(** The pointee's own clone operation; [None] when it throws. *)
Class Clonable (T : Type) : Type := clone_of : T -> option T.

(** A fresh non-null address, as [new] hands out. *)
Definition fresh_address {T} (h : gmap N T) : pointer :=
  fresh ({[nullptr]} ∪ dom h).

(** Modelled from the spec: [default_clone<T>] of cloner.hpp, which is not
    among the sources.  It exposes one operation, "clone pointee of type T,
    returning a new owned instance or failing", and invokes the clone
    operation of the pointee type itself. *)
Inductive default_clone : Type := DefaultClone.

Definition default_clone_call {T} `{!Clonable T} (c : default_clone)
    (p : pointer) (h : gmap N T) : clone_result T :=
  match h !! p with
  | Some x =>
      match clone_of x with
      | Some y => CloneRet (fresh_address h) (<[fresh_address h := y]> h)
      | None => CloneThrow h
      end
  | None => CloneUndef
  end.

#[export] Instance default_clone_Cloner {T} `{!Clonable T}
    : Cloner T default_clone := {
  cloner_init := DefaultClone;
  cloner_call := default_clone_call;
  cloner_moved := fun c => c;
  cloner_self_moved := fun c => c
}.

(** [std::default_delete<T>]: [delete p], which frees the object at [p]
    and does nothing for a null pointer. *)
Inductive default_delete : Type := DefaultDelete.

Definition default_delete_call {T} (d : default_delete) (p : pointer)
    (h : gmap N T) : gmap N T :=
  if decide (p = nullptr) then h else delete p h.

#[export] Instance default_delete_Deleter {T} : Deleter T default_delete := {
  deleter_init := DefaultDelete;
  deleter_call := default_delete_call;
  deleter_moved := fun d => d;
  deleter_self_moved := fun d => d
}.

(** A pointee of integer type whose clone copies the value and throws on a
    negative one. *)
#[export] Instance Z_clone : Clonable Z :=
  fun x => if decide (0 <= x)%Z then Some x else None.

(** ** Instances used in the examples *)

(** [value_ptr<int>] with the default policies: instance [A] at address 1,
    storage [B] for a second instance. *)
Definition A : nat := 0.
Definition B : nat := 1.

Definition int_ptr (p : pointer) : value_ptr default_clone default_delete :=
  tuple p DefaultClone DefaultDelete.

(** [A] owns an [int] of value 5. *)
Definition owns_5 : state Z default_clone default_delete :=
  State {[ A := int_ptr 1 ]} {[ 1%N := 5%Z ]} [].

(** [A] owns an [int] whose clone throws. *)
Definition owns_bad : state Z default_clone default_delete :=
  State {[ A := int_ptr 1 ]} {[ 1%N := (-3)%Z ]} [].

(** [A] is empty and an unowned [int] lives at address 1. *)
Definition owns_nothing : state Z default_clone default_delete :=
  State {[ A := int_ptr nullptr ]} {[ 1%N := 5%Z ]} [].

(** [A] owns the [int] at address 1 and [B] the one at address 2. *)
Definition owns_two : state Z default_clone default_delete :=
  State {[ A := int_ptr 1; B := int_ptr 2 ]} {[ 1%N := 5%Z; 2%N := 9%Z ]} [].

(** [A] owns the [int] at address 1; the [int] at address 2 is owned by no
    instance. *)
Definition owns_5_spare_9 : state Z default_clone default_delete :=
  State {[ A := int_ptr 1 ]} {[ 1%N := 5%Z; 2%N := 9%Z ]} [].

(** [A] is empty and [B] owns the [int] at address 2. *)
Definition empty_and_9 : state Z default_clone default_delete :=
  State {[ A := int_ptr nullptr; B := int_ptr 2 ]} {[ 2%N := 9%Z ]} [].

(** ** Stepping through the member functions *)

Section steps.
Context {T ClonerT DeleterT : Type}.
Context `{!Cloner T ClonerT, !Deleter T DeleterT}.
Implicit Types (s : state T ClonerT DeleterT) (v : value_ptr ClonerT DeleterT).
Implicit Types (this : nat) (p q : pointer).

Lemma state_eta s : State (objs s) (heap s) (trace s) = s.
Proof. by destruct s. Qed.

Lemma bind_Ret {A B} (m : M T ClonerT DeleterT A)
    (k : A -> M T ClonerT DeleterT B) s a s' :
  m s = Ret a s' -> bind m k s = k a s'.
Proof. unfold bind. by intros ->. Qed.

Lemma bind_Throw {A B} (m : M T ClonerT DeleterT A)
    (k : A -> M T ClonerT DeleterT B) s s' :
  m s = Throw s' -> bind m k s = Throw s'.
Proof. unfold bind. by intros ->. Qed.

Lemma self_at s this v : objs s !! this = Some v -> self this s = Ret v s.
Proof. unfold self. by intros ->. Qed.

Lemma get_at s this v :
  objs s !! this = Some v -> get this s = Ret (m_0 v) s.
Proof.
  intros Hv. unfold get. by rewrite (bind_Ret _ _ _ _ _ (self_at _ _ _ Hv)).
Qed.

Lemma get_deleter_at s this v :
  objs s !! this = Some v -> get_deleter this s = Ret (m_2 v) s.
Proof.
  intros Hv. unfold get_deleter.
  by rewrite (bind_Ret _ _ _ _ _ (self_at _ _ _ Hv)).
Qed.

Lemma get_cloner_at s this v :
  objs s !! this = Some v -> get_cloner this s = Ret (m_1 v) s.
Proof.
  intros Hv. unfold get_cloner.
  by rewrite (bind_Ret _ _ _ _ _ (self_at _ _ _ Hv)).
Qed.

Lemma set_0_at s this v p :
  objs s !! this = Some v ->
  set_0 this p s =
    Ret tt (State (<[this := tuple p (m_1 v) (m_2 v)]> (objs s)) (heap s) (trace s)).
Proof.
  intros Hv. unfold set_0.
  by rewrite (bind_Ret _ _ _ _ _ (self_at _ _ _ Hv)).
Qed.

Lemma set_deleter_at s this v d :
  objs s !! this = Some v ->
  set_deleter this d s =
    Ret tt (State (<[this := tuple (m_0 v) (m_1 v) d]> (objs s)) (heap s) (trace s)).
Proof.
  intros Hv. unfold set_deleter.
  by rewrite (bind_Ret _ _ _ _ _ (self_at _ _ _ Hv)).
Qed.

Lemma set_cloner_at s this v c :
  objs s !! this = Some v ->
  set_cloner this c s =
    Ret tt (State (<[this := tuple (m_0 v) c (m_2 v)]> (objs s)) (heap s) (trace s)).
Proof.
  intros Hv. unfold set_cloner.
  by rewrite (bind_Ret _ _ _ _ _ (self_at _ _ _ Hv)).
Qed.

Lemma operator_bool_at s this v :
  objs s !! this = Some v ->
  operator_bool this s = Ret (if decide (m_0 v = nullptr) then false else true) s.
Proof.
  intros Hv. unfold operator_bool.
  by rewrite (bind_Ret _ _ _ _ _ (get_at _ _ _ Hv)).
Qed.

(** [clone] on an empty instance: null, and nothing is called. *)
Lemma clone_empty s this v :
  objs s !! this = Some v -> m_0 v = nullptr -> clone this s = Ret nullptr s.
Proof.
  intros Hv H0. unfold clone.
  rewrite (bind_Ret _ _ _ _ _ (operator_bool_at _ _ _ Hv)).
  by rewrite decide_True.
Qed.

(** [clone] on an instance that holds something is the cloner call. *)
Lemma clone_held s this v :
  objs s !! this = Some v -> m_0 v <> nullptr ->
  clone this s = invoke_cloner (m_1 v) (m_0 v) s.
Proof.
  intros Hv H0. unfold clone.
  rewrite (bind_Ret _ _ _ _ _ (operator_bool_at _ _ _ Hv)).
  rewrite decide_False by done.
  rewrite (bind_Ret _ _ _ _ _ (get_cloner_at _ _ _ Hv)).
  by rewrite (bind_Ret _ _ _ _ _ (get_at _ _ _ Hv)).
Qed.

(** [reset] with the pointer already held. *)
Lemma reset_same s this v :
  objs s !! this = Some v -> reset this (m_0 v) s = Ret tt s.
Proof.
  intros Hv. unfold reset.
  rewrite (bind_Ret _ _ _ _ _ (get_at _ _ _ Hv)).
  by rewrite decide_False by (intros Hne; by apply Hne).
Qed.

(** [reset] with another pointer: one deleter call on the pointer held,
    then the new pointer is stored. *)
Lemma reset_other s this v p :
  objs s !! this = Some v -> p <> m_0 v ->
  reset this p s =
    Ret tt (State (<[this := tuple p (m_1 v) (m_2 v)]> (objs s))
                  (deleter_call (m_2 v) (m_0 v) (heap s))
                  (trace s ++ [DeleteCall (m_2 v) (m_0 v)])).
Proof.
  intros Hv Hne. unfold reset.
  rewrite (bind_Ret _ _ _ _ _ (get_at _ _ _ Hv)).
  rewrite decide_True by done.
  rewrite (bind_Ret _ _ _ _ _ (get_deleter_at _ _ _ Hv)).
  rewrite (bind_Ret _ _ _ _ _ (get_at _ _ _ Hv)).
  unfold bind at 1, invoke_deleter at 1.
  by rewrite (set_0_at _ _ v).
Qed.

Lemma release_at s this v :
  objs s !! this = Some v ->
  release this s =
    Ret (m_0 v)
        (State (<[this := tuple nullptr (m_1 v) (m_2 v)]> (objs s)) (heap s) (trace s)).
Proof.
  intros Hv. unfold release.
  rewrite (bind_Ret _ _ _ _ _ (get_at _ _ _ Hv)).
  by rewrite (bind_Ret _ _ _ _ _ (set_0_at _ _ _ _ Hv)).
Qed.

(** The destructor of an empty instance calls nothing. *)
Lemma destructor_empty s this v :
  objs s !! this = Some v -> m_0 v = nullptr ->
  destructor this s = Ret tt (State (delete this (objs s)) (heap s) (trace s)).
Proof.
  intros Hv H0. unfold destructor.
  rewrite <- H0. by rewrite (bind_Ret _ _ _ _ _ (reset_same _ _ _ Hv)).
Qed.

(** The destructor of an instance that holds [m_0 v]: one deleter call. *)
Lemma destructor_held s this v :
  objs s !! this = Some v -> m_0 v <> nullptr ->
  destructor this s =
    Ret tt (State (delete this (objs s))
                  (deleter_call (m_2 v) (m_0 v) (heap s))
                  (trace s ++ [DeleteCall (m_2 v) (m_0 v)])).
Proof.
  intros Hv H0. unfold destructor.
  rewrite (bind_Ret _ _ _ _ _ (reset_other _ _ _ nullptr Hv (not_eq_sym H0))).
  unfold drop. cbn. by rewrite delete_insert_eq.
Qed.

Lemma invoke_cloner_objs c p s :
  match invoke_cloner c p s with
  | Ret _ s1 | Throw s1 =>
      objs s1 = objs s /\ trace s1 = trace s ++ [CloneCall c p]
  | Undef => True
  end.
Proof. unfold invoke_cloner. by destruct (cloner_call c p (heap s)). Qed.

(** [*v] on an instance holding a live object. *)
Lemma operator_star_at s this v (x : T) :
  objs s !! this = Some v -> m_0 v <> nullptr ->
  heap s !! m_0 v = Some x ->
  operator_star this s = Ret (m_0 v) s.
Proof.
  intros Hv H0 Hx. unfold operator_star.
  rewrite (bind_Ret _ _ _ _ _ (get_at _ _ _ Hv)).
  rewrite decide_False by done. by rewrite Hx.
Qed.

Lemma load_at s p (x : T) : heap s !! p = Some x -> load p s = Ret x s.
Proof. unfold load. by intros ->. Qed.

Lemma store_at s p (x y : T) :
  heap s !! p = Some x ->
  store p y s = Ret tt (State (objs s) (<[p := y]> (heap s)) (trace s)).
Proof. unfold store. by intros ->. Qed.

Lemma clone_ret s this v q h :
  objs s !! this = Some v -> m_0 v <> nullptr ->
  cloner_call (m_1 v) (m_0 v) (heap s) = CloneRet q h ->
  clone this s =
    Ret q (State (objs s) h (trace s ++ [CloneCall (m_1 v) (m_0 v)])).
Proof.
  intros Hv H0 Hcall. rewrite (clone_held _ _ _ Hv H0).
  unfold invoke_cloner. by rewrite Hcall.
Qed.

Lemma clone_throw s this v h :
  objs s !! this = Some v -> m_0 v <> nullptr ->
  cloner_call (m_1 v) (m_0 v) (heap s) = CloneThrow h ->
  clone this s =
    Throw (State (objs s) h (trace s ++ [CloneCall (m_1 v) (m_0 v)])).
Proof.
  intros Hv H0 Hcall. rewrite (clone_held _ _ _ Hv H0).
  unfold invoke_cloner. by rewrite Hcall.
Qed.

End steps.

(** Finding an instance in a store that was written to. *)
Ltac vp_lookup :=
  cbn [objs heap trace];
  solve [ eassumption
        | apply lookup_insert_eq
        | rewrite lookup_insert_ne by congruence; vp_lookup ].

(** One member-function call on an instance known to the store. *)
Ltac vp_step :=
  first
    [ erewrite bind_Ret by (eapply get_at; vp_lookup)
    | erewrite bind_Ret by (eapply get_deleter_at; vp_lookup)
    | erewrite bind_Ret by (eapply get_cloner_at; vp_lookup)
    | erewrite bind_Ret by (eapply set_deleter_at; vp_lookup)
    | erewrite bind_Ret by (eapply set_cloner_at; vp_lookup)
    | erewrite bind_Ret by (eapply set_0_at; vp_lookup)
    | erewrite bind_Ret by (eapply release_at; vp_lookup)
    | erewrite bind_Ret by (eapply self_at; vp_lookup)
    | erewrite set_deleter_at by vp_lookup
    | erewrite set_cloner_at by vp_lookup ];
  cbn [objs heap trace m_0 m_1 m_2].

Section constructors.
Context {T ClonerT DeleterT : Type}.
Context `{!Cloner T ClonerT, !Deleter T DeleterT}.
Implicit Types (s : state T ClonerT DeleterT) (v : value_ptr ClonerT DeleterT).
Implicit Types (this that : nat) (p q : pointer).

(** Copy construction from an empty instance: no policy is called. *)
Lemma value_ptr_copy_empty s this that v :
  objs s !! that = Some v -> this <> that -> m_0 v = nullptr ->
  value_ptr_copy this that s =
    Ret tt (State (<[this := tuple nullptr (m_1 v) (m_2 v)]> (objs s))
                  (heap s) (trace s)).
Proof.
  intros Hv Hne H0. unfold value_ptr_copy, put, bind at 1, unwinding.
  erewrite bind_Ret by (eapply clone_empty; [vp_lookup | done]).
  erewrite bind_Ret by (apply (reset_same _ this m_default); vp_lookup).
  repeat vp_step. by rewrite !insert_insert_eq.
Qed.

(** Copy construction when the cloner returns [q]: the value-initialised
    deleter is called on the null pointer the new instance starts with. *)
Lemma value_ptr_copy_ret s this that v q h :
  objs s !! that = Some v -> this <> that -> m_0 v <> nullptr ->
  cloner_call (m_1 v) (m_0 v) (heap s) = CloneRet q h ->
  q <> nullptr ->
  value_ptr_copy this that s =
    Ret tt (State (<[this := tuple q (m_1 v) (m_2 v)]> (objs s))
                  (deleter_call deleter_init nullptr h)
                  (trace s ++ [CloneCall (m_1 v) (m_0 v);
                               DeleteCall deleter_init nullptr])).
Proof.
  intros Hv Hne H0 Hcall Hq. unfold value_ptr_copy, put, bind at 1, unwinding.
  erewrite bind_Ret by (eapply clone_ret; [vp_lookup | done | exact Hcall]).
  erewrite bind_Ret
    by (apply (reset_other _ this m_default); [vp_lookup | exact Hq]).
  cbn [objs heap trace m_0 m_1 m_2 m_default].
  repeat vp_step. by rewrite !insert_insert_eq, <- app_assoc.
Qed.

(** Copy construction when the cloner throws: the storage of the new
    instance is given up and the exception goes on. *)
Lemma value_ptr_copy_throw s this that v h :
  objs s !! that = Some v -> objs s !! this = None -> m_0 v <> nullptr ->
  cloner_call (m_1 v) (m_0 v) (heap s) = CloneThrow h ->
  value_ptr_copy this that s =
    Throw (State (objs s) h (trace s ++ [CloneCall (m_1 v) (m_0 v)])).
Proof.
  intros Hv Hthis H0 Hcall.
  unfold value_ptr_copy, put, bind at 1, unwinding.
  erewrite bind_Throw; last first.
  { eapply clone_throw; [| done | exact Hcall].
    cbn. by rewrite lookup_insert_ne by congruence. }
  unfold drop. cbn. by rewrite delete_insert_id.
Qed.

Lemma move_assign_deleter_self s this v :
  objs s !! this = Some v ->
  move_assign_deleter this this s =
    Ret tt (State (<[this := tuple (m_0 v) (m_1 v)
                                   (deleter_self_moved (m_2 v))]> (objs s))
                  (heap s) (trace s)).
Proof.
  intros Hv. unfold move_assign_deleter. vp_step.
  rewrite decide_True by done. by vp_step.
Qed.

Lemma move_assign_cloner_self s this v :
  objs s !! this = Some v ->
  move_assign_cloner this this s =
    Ret tt (State (<[this := tuple (m_0 v) (cloner_self_moved (m_1 v))
                                   (m_2 v)]> (objs s))
                  (heap s) (trace s)).
Proof.
  intros Hv. unfold move_assign_cloner. vp_step.
  rewrite decide_True by done. by vp_step.
Qed.

Lemma move_assign_deleter_other s this that w v :
  objs s !! this = Some w -> objs s !! that = Some v -> this <> that ->
  move_assign_deleter this that s =
    Ret tt (State (<[that := tuple (m_0 v) (m_1 v) (deleter_moved (m_2 v))]>
                     (<[this := tuple (m_0 w) (m_1 w) (m_2 v)]> (objs s)))
                  (heap s) (trace s)).
Proof.
  intros Hw Hv Hne. unfold move_assign_deleter. vp_step.
  rewrite decide_False by done. by repeat vp_step.
Qed.

Lemma move_assign_cloner_other s this that w v :
  objs s !! this = Some w -> objs s !! that = Some v -> this <> that ->
  move_assign_cloner this that s =
    Ret tt (State (<[that := tuple (m_0 v) (cloner_moved (m_1 v)) (m_2 v)]>
                     (<[this := tuple (m_0 w) (m_1 v) (m_2 w)]> (objs s)))
                  (heap s) (trace s)).
Proof.
  intros Hw Hv Hne. unfold move_assign_cloner. vp_step.
  rewrite decide_False by done. by repeat vp_step.
Qed.

(** Move assignment between two instances: the target's old pointer goes
    to the target's deleter (unless it is the pointer moved in), the
    target takes pointer, cloner and deleter of the source, and the source
    is left empty with moved-from policies.  No cloner is called. *)
Lemma assign_move_transfers s this that w v :
  objs s !! this = Some w -> objs s !! that = Some v -> this <> that ->
  assign_move this that s =
    Ret tt (State (<[that := tuple nullptr (cloner_moved (m_1 v))
                                          (deleter_moved (m_2 v))]>
                     (<[this := tuple (m_0 v) (m_1 v) (m_2 v)]> (objs s)))
                  (if decide (m_0 v = m_0 w) then heap s
                   else deleter_call (m_2 w) (m_0 w) (heap s))
                  (trace s ++
                     if decide (m_0 v = m_0 w) then []
                     else [DeleteCall (m_2 w) (m_0 w)])).
Proof.
  intros Hw Hv Hne. unfold assign_move. vp_step.
  destruct (decide (m_0 v = m_0 w)) as [E | E].
  - erewrite bind_Ret; last first.
    { rewrite E. apply reset_same. vp_lookup. }
    erewrite bind_Ret
      by (eapply move_assign_deleter_other; [vp_lookup | vp_lookup | done]).
    cbn [objs heap trace m_0 m_1 m_2].
    erewrite move_assign_cloner_other; [| vp_lookup | vp_lookup | done].
    cbn [objs heap trace m_0 m_1 m_2].
    rewrite app_nil_r, <- E. do 2 f_equal.
    apply map_eq. intros i.
    destruct (decide (i = that)) as [-> | ?];
      [by rewrite !lookup_insert_eq |].
    destruct (decide (i = this)) as [-> | ?]; by simplify_map_eq.
  - erewrite bind_Ret; last first.
    { apply (reset_other _ this w); [vp_lookup | done]. }
    cbn [objs heap trace].
    erewrite bind_Ret
      by (eapply move_assign_deleter_other; [vp_lookup | vp_lookup | done]).
    cbn [objs heap trace m_0 m_1 m_2].
    erewrite move_assign_cloner_other; [| vp_lookup | vp_lookup | done].
    cbn [objs heap trace m_0 m_1 m_2]. do 2 f_equal.
    apply map_eq. intros i.
    destruct (decide (i = that)) as [-> | ?];
      [by rewrite !lookup_insert_eq |].
    destruct (decide (i = this)) as [-> | ?]; by simplify_map_eq.
Qed.

End constructors.

(** ** The default policies honour the contracts *)

Lemma fresh_address_spec {T} (h : gmap N T) :
  fresh_address h <> nullptr /\ h !! fresh_address h = None.
Proof.
  unfold fresh_address.
  pose proof (is_fresh ({[nullptr]} ∪ dom h)) as Hf.
  split.
  - intros E. apply Hf. rewrite E. set_solver.
  - apply not_elem_of_dom. set_solver.
Qed.

Lemma default_clone_honours {T} `{!Clonable T} (c : default_clone) :
  (forall x y : T, clone_of x = Some y -> y = x) ->
  honours_clone (T := T) c.
Proof.
  intros Hsame p x h Hx. cbn. unfold default_clone_call. rewrite Hx.
  destruct (clone_of x) as [y |] eqn:Hy; [| done].
  rewrite (Hsame _ _ Hy).
  destruct (fresh_address_spec h) as [Hn Hf]. done.
Qed.

Lemma Z_clone_same (x y : Z) : clone_of x = Some y -> y = x.
Proof. unfold clone_of, Z_clone. case_decide; congruence. Qed.

Lemma default_delete_accepts_null {T} (d : default_delete) :
  accepts_null (T := T) d.
Proof. intros h. reflexivity. Qed.

Lemma default_delete_frees {T} (d : default_delete) : frees (T := T) d.
Proof.
  intros p h Hp. cbn. unfold default_delete_call. by rewrite decide_False.
Qed.

(** ** The properties of the specification *)

Section properties.
Context {T ClonerT DeleterT : Type}.
Context `{!Cloner T ClonerT, !Deleter T DeleterT}.
Implicit Types (s : state T ClonerT DeleterT) (v : value_ptr ClonerT DeleterT).
Implicit Types (this : nat) (p q : pointer).

(** C4: [v.reset(p)] with [p] equal to [v.get()] is a no-op.  Both
    [reset] called with the pointer held and the literal
    [v.reset(v.get())] return with the state they started from: no
    deleter call is logged, the free store and the instance (pointer,
    cloner, deleter) are unchanged. *)
Theorem reset_held_is_noop s this v :
  objs s !! this = Some v ->
  reset this (m_0 v) s = Ret tt s /\
  bind (get this) (fun p => reset this p) s = Ret tt s.
Proof.
  intros Hv. split.
  - by apply reset_same.
  - rewrite (bind_Ret _ _ _ _ _ (get_at _ _ _ Hv)). by apply reset_same.
Qed.

(** C10: on an empty instance, [reset(p)] with a non-null [p] calls the
    stored deleter exactly once, on the null pointer, and then adopts
    [p]: the log grows by the single entry [DeleteCall d nullptr], the
    free store is what that call made of it, and the instance holds [p]
    with its policies unchanged. *)
Theorem reset_empty_calls_deleter_on_null s this v p :
  objs s !! this = Some v ->
  m_0 v = nullptr ->
  p <> nullptr ->
  reset this p s =
    Ret tt (State (<[this := tuple p (m_1 v) (m_2 v)]> (objs s))
                  (deleter_call (m_2 v) nullptr (heap s))
                  (trace s ++ [DeleteCall (m_2 v) nullptr])).
Proof.
  intros Hv H0 Hp. rewrite <- H0.
  apply reset_other; [done | by rewrite H0].
Qed.

(** C6: [release()] returns the pointer held and leaves the instance
    empty, calling no policy (the log and the free store are unchanged);
    the destructor run afterwards calls no policy either, so the released
    object is not destroyed by the instance. *)
Theorem release_then_destructor s this v :
  objs s !! this = Some v ->
  let s1 := State (<[this := tuple nullptr (m_1 v) (m_2 v)]> (objs s))
                  (heap s) (trace s) in
  release this s = Ret (m_0 v) s1 /\
  get this s1 = Ret nullptr s1 /\
  destructor this s1 =
    Ret tt (State (delete this (objs s)) (heap s) (trace s)).
Proof.
  intros Hv s1.
  assert (Hs1 : objs s1 !! this = Some (tuple nullptr (m_1 v) (m_2 v)))
    by apply lookup_insert_eq.
  split; [by apply release_at |]. split.
  - by rewrite (get_at _ _ _ Hs1).
  - rewrite (destructor_empty _ _ _ Hs1) by done.
    subst s1. cbn. by rewrite delete_insert_eq.
Qed.

(** C8: default construction and construction from null give an empty
    instance with default-constructed cloner and deleter; on it the
    boolean conversion is false, [get()] and [clone()] return null and
    the destructor calls no policy.  For any instance the boolean
    conversion is true exactly when [get()] is non-null. *)
Theorem empty_instance s this :
  let s1 := State (<[this := tuple nullptr cloner_init deleter_init]> (objs s))
                  (heap s) (trace s) in
  value_ptr_default this s = Ret tt s1 /\
  value_ptr_null this s = Ret tt s1 /\
  operator_bool this s1 = Ret false s1 /\
  get this s1 = Ret nullptr s1 /\
  clone this s1 = Ret nullptr s1 /\
  destructor this s1 = Ret tt (State (delete this (objs s)) (heap s) (trace s)) /\
  (forall s' that v,
      objs s' !! that = Some v ->
      exists b,
        operator_bool that s' = Ret b s' /\
        get that s' = Ret (m_0 v) s' /\
        (b = true <-> m_0 v <> nullptr)).
Proof.
  intros s1.
  assert (Hs1 : objs s1 !! this = Some (tuple nullptr cloner_init deleter_init))
    by apply lookup_insert_eq.
  repeat split.
  - by rewrite (operator_bool_at _ _ _ Hs1).
  - by rewrite (get_at _ _ _ Hs1).
  - by rewrite (clone_empty _ _ _ Hs1).
  - rewrite (destructor_empty _ _ _ Hs1) by done.
    subst s1. cbn. by rewrite delete_insert_eq.
  - intros s' that v Hv.
    exists (if decide (m_0 v = nullptr) then false else true).
    split; [by apply operator_bool_at |].
    split; [by apply get_at |].
    case_decide; split; congruence.
Qed.

(** C9: self-move-assignment [v = std::move(v)] returns, and [v] holds
    the pointer it held; its cloner and deleter are what their own
    self-move-assignment leaves, so with policies that a self-move leaves
    as they are the instance is exactly as before.  The only policy
    call made is one call of [v]'s deleter on the null pointer (none at all
    when [v] is empty), so the owned object is never handed to the deleter;
    with a deleter that accepts null as a no-op the free store, and so the
    pointee's value, is unchanged. *)
Theorem self_move_assign s this v :
  objs s !! this = Some v ->
  exists s',
    assign_move this this s = Ret tt s' /\
    objs s' =
      <[this := tuple (m_0 v) (cloner_self_moved (m_1 v))
                      (deleter_self_moved (m_2 v))]> (objs s) /\
    get this s' = Ret (m_0 v) s' /\
    trace s' =
      trace s ++ (if decide (m_0 v = nullptr) then []
                  else [DeleteCall (m_2 v) nullptr]) /\
    heap s' =
      (if decide (m_0 v = nullptr) then heap s
       else deleter_call (m_2 v) nullptr (heap s)) /\
    (accepts_null (m_2 v) -> heap s' = heap s) /\
    (cloner_self_moved (m_1 v) = m_1 v ->
     deleter_self_moved (m_2 v) = m_2 v ->
     objs s' = objs s).
Proof.
  intros Hv. unfold assign_move. vp_step.
  assert (Hobjs : forall a b c d : value_ptr ClonerT DeleterT,
    <[this := a]> (<[this := b]> (<[this := c]> (<[this := d]> (objs s)))) =
    <[this := a]> (objs s)) by (intros; by rewrite !insert_insert_eq).
  assert (Hid : cloner_self_moved (m_1 v) = m_1 v ->
                deleter_self_moved (m_2 v) = m_2 v ->
                <[this := tuple (m_0 v) (cloner_self_moved (m_1 v))
                                (deleter_self_moved (m_2 v))]> (objs s) =
                objs s).
  { intros -> ->. apply insert_id. rewrite Hv. by destruct v. }
  destruct (decide (m_0 v = nullptr)) as [H0|H0].
  - erewrite bind_Ret; last first.
    { rewrite H0.
      apply (reset_same _ this (tuple nullptr (m_1 v) (m_2 v))). vp_lookup. }
    erewrite bind_Ret by (eapply move_assign_deleter_self; vp_lookup).
    cbn [objs heap trace m_0 m_1 m_2].
    erewrite move_assign_cloner_self by vp_lookup.
    cbn [objs heap trace m_0 m_1 m_2].
    eexists. split; [reflexivity |]. cbn [objs heap trace].
    rewrite !insert_insert_eq, app_nil_r, <- H0.
    split; [done |]. split; [by erewrite get_at by vp_lookup |]. done.
  - erewrite bind_Ret; last first.
    { apply (reset_other _ this (tuple nullptr (m_1 v) (m_2 v)));
        [vp_lookup | done]. }
    cbn [m_0 m_1 m_2 objs heap trace].
    erewrite bind_Ret by (eapply move_assign_deleter_self; vp_lookup).
    cbn [objs heap trace m_0 m_1 m_2].
    erewrite move_assign_cloner_self by vp_lookup.
    cbn [objs heap trace m_0 m_1 m_2].
    eexists. split; [reflexivity |]. cbn [objs heap trace].
    rewrite !insert_insert_eq.
    split; [done |]. split; [by erewrite get_at by vp_lookup |].
    split; [done |]. split; [done |]. split; [| done].
    intros Hnull. apply Hnull.
Qed.

(** C3: copy assignment [w = v] clones first.  When [v.clone()] throws,
    the assignment throws with the state the clone left: the target still
    holds its pointer and policies and no deleter call was made.  When it
    returns [p], the deleter call on the target's old pointer (made unless
    [p] is that very pointer) acts on the free store the clone left and is
    logged after it, and the target ends up holding [p] with copies of
    [v]'s cloner and deleter. *)
Theorem assign_copy_clones_first s this that w v :
  objs s !! this = Some w ->
  objs s !! that = Some v ->
  match clone that s with
  | Ret p s1 =>
      objs s1 = objs s /\
      assign_copy this that s =
        Ret tt (State (<[this := tuple p (m_1 v) (m_2 v)]> (objs s))
                      (if decide (p = m_0 w) then heap s1
                       else deleter_call (m_2 w) (m_0 w) (heap s1))
                      (trace s1 ++
                         if decide (p = m_0 w) then []
                         else [DeleteCall (m_2 w) (m_0 w)]))
  | Throw s1 =>
      assign_copy this that s = Throw s1 /\
      objs s1 = objs s /\
      trace s1 = trace s ++ [CloneCall (m_1 v) (m_0 v)]
  | Undef => assign_copy this that s = Undef
  end.
Proof.
  intros Hw Hv.
  assert (Hrest : forall p s1,
    clone that s = Ret p s1 -> objs s1 = objs s ->
    assign_copy this that s =
      Ret tt (State (<[this := tuple p (m_1 v) (m_2 v)]> (objs s))
                    (if decide (p = m_0 w) then heap s1
                     else deleter_call (m_2 w) (m_0 w) (heap s1))
                    (trace s1 ++
                       if decide (p = m_0 w) then []
                       else [DeleteCall (m_2 w) (m_0 w)]))).
  { intros p s1 Hc Ho. unfold assign_copy. rewrite (bind_Ret _ _ _ _ _ Hc).
    assert (Hw1 : objs s1 !! this = Some w) by (by rewrite Ho).
    assert (Hv1 : objs s1 !! that = Some v) by (by rewrite Ho).
    destruct (decide (p = m_0 w)) as [-> | Hp].
    - rewrite (bind_Ret _ _ _ _ _ (reset_same _ _ _ Hw1)).
      destruct (decide (this = that)) as [-> | Hne]; repeat vp_step.
      + rewrite insert_insert_eq, app_nil_r, Ho.
        by replace w with v by congruence.
      + by rewrite insert_insert_eq, app_nil_r, Ho.
    - rewrite (bind_Ret _ _ _ _ _ (reset_other _ _ _ _ Hw1 Hp)).
      destruct (decide (this = that)) as [-> | Hne]; repeat vp_step.
      + rewrite !insert_insert_eq, Ho.
        by replace w with v by congruence.
      + by rewrite !insert_insert_eq, Ho. }
  destruct (decide (m_0 v = nullptr)) as [H0 | H0].
  - pose proof (clone_empty _ _ _ Hv H0) as Hc. rewrite Hc.
    split; [done |]. by apply Hrest.
  - pose proof (clone_held _ _ _ Hv H0) as Hc.
    pose proof (invoke_cloner_objs (m_1 v) (m_0 v) s) as Hi.
    rewrite <- Hc in Hi.
    destruct (clone that s) as [p s1 | s1 |] eqn:Hcl.
    + destruct Hi as [Ho _]. split; [done |]. by apply Hrest.
    + destruct Hi as [Ho Ht]. split; [| done].
      unfold assign_copy. by rewrite (bind_Throw _ _ _ _ Hcl).
    + unfold assign_copy, bind. by rewrite Hcl.
Qed.

(** C2: when the cloner call throws, [v.clone()] and copy construction
    from [v] both throw with one and the same state: the store of
    instances is the one before (so [v] has its pointer, cloner and
    deleter, and no new instance exists), the log has the cloner call and
    no deleter call, and the free store is exactly what the throwing
    cloner left, which is the free store before when the cloner honours
    its contract. *)
Theorem clone_throw_leaves_source s this that v h :
  objs s !! that = Some v ->
  objs s !! this = None ->
  m_0 v <> nullptr ->
  cloner_call (m_1 v) (m_0 v) (heap s) = CloneThrow h ->
  let s1 := State (objs s) h (trace s ++ [CloneCall (m_1 v) (m_0 v)]) in
  clone that s = Throw s1 /\
  value_ptr_copy this that s = Throw s1 /\
  objs s1 !! that = Some v /\
  objs s1 !! this = None /\
  (honours_clone (m_1 v) -> is_Some (heap s !! m_0 v) -> heap s1 = heap s).
Proof.
  intros Hv Hthis H0 Hcall s1.
  split; [by apply clone_throw |].
  split; [by apply value_ptr_copy_throw |].
  split; [done |]. split; [done |].
  intros Hhon [x Hx]. specialize (Hhon _ _ _ Hx).
  by rewrite Hcall in Hhon.
Qed.

(** C5: on an empty instance [clone()] returns null and leaves the state
    as it is, so the cloner is not called.  On an instance holding a live
    object of value [x], with a cloner that honours its contract,
    [clone()] either returns a pointer distinct from [get()] at which the
    free store holds [x], with the pointee of [v] still [x] and the
    instance unchanged, or throws with instances and free store
    unchanged. *)
Theorem clone_is_fresh_and_equal s this v :
  objs s !! this = Some v ->
  (m_0 v = nullptr -> clone this s = Ret nullptr s) /\
  (forall x,
      m_0 v <> nullptr ->
      heap s !! m_0 v = Some x ->
      honours_clone (m_1 v) ->
      match clone this s with
      | Ret q s1 =>
          q <> m_0 v /\ q <> nullptr /\
          heap s1 !! q = Some x /\
          heap s1 !! m_0 v = Some x /\
          heap s1 = <[q := x]> (heap s) /\
          objs s1 = objs s
      | Throw s1 => objs s1 = objs s /\ heap s1 = heap s
      | Undef => False
      end).
Proof.
  intros Hv. split; [by apply clone_empty |].
  intros x H0 Hx Hhon. rewrite (clone_held _ _ _ Hv H0).
  specialize (Hhon _ _ _ Hx). unfold invoke_cloner.
  destruct (cloner_call (m_1 v) (m_0 v) (heap s)) as [q h' | h' |]; cbn.
  - destruct Hhon as (Hq & Hfresh & ->).
    assert (q <> m_0 v) by congruence.
    rewrite lookup_insert_eq, lookup_insert_ne by done. done.
  - done.
  - done.
Qed.

(** C7: a copy shares nothing with its source.  Let [v] be an instance
    that is empty or holds a live object, with a cloner that honours its
    contract and deleters that free what they are handed and accept null.
    When copy construction of [w] from [v] returns, then (1) [v] is as it
    was, (2) destroying [w] gives back exactly the instances and the free
    store from before the copy, and (3) when [v] holds an object of value
    [x], assigning [y] through [*v] makes [*v] read [y] while [*w] still
    reads [x]. *)
Theorem copy_is_deep s this that v :
  objs s !! that = Some v ->
  objs s !! this = None ->
  (m_0 v <> nullptr -> is_Some (heap s !! m_0 v)) ->
  honours_clone (m_1 v) ->
  accepts_null (deleter_init : DeleterT) ->
  frees (m_2 v) ->
  match value_ptr_copy this that s with
  | Ret _ s1 =>
      objs s1 !! that = Some v /\
      (exists s2,
          destructor this s1 = Ret tt s2 /\
          objs s2 = objs s /\ heap s2 = heap s) /\
      (forall x y,
          m_0 v <> nullptr -> heap s !! m_0 v = Some x ->
          exists s3,
            bind (operator_star that) (fun l => store l y) s1 = Ret tt s3 /\
            bind (operator_star that) load s3 = Ret y s3 /\
            bind (operator_star this) load s3 = Ret x s3)
  | Throw s1 => objs s1 = objs s /\ heap s1 = heap s
  | Undef => False
  end.
Proof.
  intros Hv Hthis Hlive Hhon Hnull Hfrees.
  assert (Hne : this <> that) by congruence.
  destruct (decide (m_0 v = nullptr)) as [H0 | H0].
  { rewrite (value_ptr_copy_empty _ _ _ _ Hv Hne H0).
    split; [vp_lookup |]. split; [| done].
    eexists. split.
    - apply (destructor_empty _ this (tuple nullptr (m_1 v) (m_2 v)));
        [vp_lookup | done].
    - cbn. by rewrite delete_insert_id. }
  destruct (Hlive H0) as [x Hx]. pose proof (Hhon _ _ _ Hx) as Hcall.
  destruct (cloner_call (m_1 v) (m_0 v) (heap s)) as [q h | h |] eqn:Hc;
    [| | done].
  2:{ rewrite (value_ptr_copy_throw _ _ _ _ _ Hv Hthis H0 Hc). by subst h. }
  destruct Hcall as (Hq & Hfresh & ->).
  assert (Hqp : q <> m_0 v) by congruence.
  rewrite (value_ptr_copy_ret _ _ _ _ _ _ Hv Hne H0 Hc Hq).
  cbn [objs heap trace]. rewrite Hnull.
  split; [vp_lookup |]. split.
  - eexists. split.
    + apply (destructor_held _ this (tuple q (m_1 v) (m_2 v)));
        [vp_lookup | done].
    + cbn [objs heap m_0 m_2]. rewrite delete_insert_id by done.
      by rewrite Hfrees, delete_insert_id by done.
  - intros x' y _ Hx'. assert (x' = x) as -> by congruence.
    eexists. split; [| split].
    + erewrite bind_Ret; last first.
      { eapply operator_star_at; [vp_lookup | done |].
        cbn. rewrite lookup_insert_ne by done. exact Hx. }
      eapply store_at. cbn. rewrite lookup_insert_ne by done. exact Hx.
    + erewrite bind_Ret; last first.
      { eapply operator_star_at; [vp_lookup | done |].
        cbn. apply lookup_insert_eq. }
      eapply load_at. cbn. apply lookup_insert_eq.
    + erewrite bind_Ret; last first.
      { eapply (operator_star_at _ this (tuple q (m_1 v) (m_2 v)));
          [vp_lookup | done |].
        cbn. rewrite lookup_insert_ne by done. apply lookup_insert_eq. }
      eapply load_at. cbn.
      rewrite lookup_insert_ne by done. apply lookup_insert_eq.
Qed.

(** C1: move assignment [w = std::move(v)] between two instances does
    what the claim says of a move: it returns (it cannot throw), [w.get()]
    is the pointer [v] held, [w] holds the cloner and the deleter [v] had,
    [v] is empty, and the only policy call is at most one call of the
    deleter [w] had on the pointer [w] held, so the cloner is never called.
    The other operation the claim names, move construction, has no
    counterpart: the body of the move constructor is ill-formed. *)
Theorem assign_move_transfers_ownership s this that w v :
  objs s !! this = Some w ->
  objs s !! that = Some v ->
  this <> that ->
  exists s1,
    assign_move this that s = Ret tt s1 /\
    get this s1 = Ret (m_0 v) s1 /\
    get_cloner this s1 = Ret (m_1 v) s1 /\
    get_deleter this s1 = Ret (m_2 v) s1 /\
    get that s1 = Ret nullptr s1 /\
    operator_bool that s1 = Ret false s1 /\
    trace s1 =
      trace s ++ (if decide (m_0 v = m_0 w) then []
                  else [DeleteCall (m_2 w) (m_0 w)]).
Proof.
  intros Hw Hv Hne. eexists.
  split; [by apply assign_move_transfers |].
  split; [by erewrite get_at by vp_lookup |].
  split; [by erewrite get_cloner_at by vp_lookup |].
  split; [by erewrite get_deleter_at by vp_lookup |].
  split; [by erewrite get_at by vp_lookup |].
  split; [by erewrite operator_bool_at by vp_lookup |].
  done.
Qed.

End properties.

(** ** The properties at concrete instances *)

Lemma reset_held_is_noop_witness :
  objs owns_5 !! A = Some (int_ptr 1) /\
  reset A 1%N owns_5 = Ret tt owns_5 /\
  bind (get A) (fun p => reset A p) owns_5 = Ret tt owns_5.
Proof.
  split; [reflexivity |].
  exact (reset_held_is_noop owns_5 A (int_ptr 1) eq_refl).
Defined.

Lemma reset_empty_calls_deleter_on_null_witness :
  objs owns_nothing !! A = Some (int_ptr nullptr) /\
  m_0 (int_ptr nullptr) = nullptr /\
  1%N <> nullptr /\
  reset A 1%N owns_nothing =
    Ret tt (State {[ A := int_ptr 1 ]} {[ 1%N := 5%Z ]}
                  [DeleteCall DefaultDelete nullptr]).
Proof.
  split; [reflexivity |]. split; [reflexivity |]. split; [done |].
  exact (reset_empty_calls_deleter_on_null owns_nothing A (int_ptr nullptr) 1%N
           eq_refl eq_refl ltac:(done)).
Defined.

Lemma release_then_destructor_witness :
  objs owns_5 !! A = Some (int_ptr 1) /\
  release A owns_5 =
    Ret 1%N (State {[ A := int_ptr nullptr ]} {[ 1%N := 5%Z ]} []) /\
  get A (State {[ A := int_ptr nullptr ]} {[ 1%N := 5%Z ]} []) =
    Ret nullptr (State {[ A := int_ptr nullptr ]} {[ 1%N := 5%Z ]} []) /\
  destructor A (State {[ A := int_ptr nullptr ]} {[ 1%N := 5%Z ]} []) =
    Ret tt (State ∅ {[ 1%N := 5%Z ]} []).
Proof.
  split; [reflexivity |].
  exact (release_then_destructor owns_5 A (int_ptr 1) eq_refl).
Defined.

Lemma empty_instance_witness :
  value_ptr_default B owns_5 =
    Ret tt (State {[ A := int_ptr 1; B := int_ptr nullptr ]} {[ 1%N := 5%Z ]} []) /\
  operator_bool B (State {[ A := int_ptr 1; B := int_ptr nullptr ]} {[ 1%N := 5%Z ]} []) =
    Ret false (State {[ A := int_ptr 1; B := int_ptr nullptr ]} {[ 1%N := 5%Z ]} []) /\
  exists b,
    operator_bool A owns_5 = Ret b owns_5 /\
    get A owns_5 = Ret 1%N owns_5 /\
    (b = true <-> 1%N <> nullptr).
Proof.
  pose proof (empty_instance owns_5 B) as (Hd & _ & Hb & _ & _ & _ & Hall).
  split; [exact Hd |]. split; [exact Hb |].
  exact (Hall owns_5 A (int_ptr 1) eq_refl).
Defined.

Lemma self_move_assign_witness :
  objs owns_5 !! A = Some (int_ptr 1) /\
  exists s',
    assign_move A A owns_5 = Ret tt s' /\
    get A s' = Ret 1%N s' /\
    trace s' = [DeleteCall DefaultDelete nullptr] /\
    heap s' = {[ 1%N := 5%Z ]} /\
    objs s' = objs owns_5.
Proof.
  split; [reflexivity |].
  destruct (self_move_assign owns_5 A (int_ptr 1) eq_refl)
    as (s' & H1 & _ & H3 & H4 & H5 & _ & H7).
  exists s'. split; [exact H1 |]. split; [exact H3 |]. split; [exact H4 |].
  split; [exact H5 |]. exact (H7 eq_refl eq_refl).
Defined.

Lemma assign_copy_clones_first_witness :
  objs owns_two !! B = Some (int_ptr 2) /\
  objs owns_two !! A = Some (int_ptr 1) /\
  clone A owns_two =
    Ret 3%N (State (objs owns_two) {[ 1%N := 5%Z; 2%N := 9%Z; 3%N := 5%Z ]}
                   [CloneCall DefaultClone 1%N]) /\
  assign_copy B A owns_two =
    Ret tt (State {[ A := int_ptr 1; B := int_ptr 3 ]}
                  {[ 1%N := 5%Z; 3%N := 5%Z ]}
                  [CloneCall DefaultClone 1%N; DeleteCall DefaultDelete 2%N]).
Proof.
  split; [reflexivity |]. split; [reflexivity |].
  assert (Hc : clone A owns_two =
    Ret 3%N (State (objs owns_two) {[ 1%N := 5%Z; 2%N := 9%Z; 3%N := 5%Z ]}
                   [CloneCall DefaultClone 1%N])) by (vm_compute; reflexivity).
  split; [exact Hc |].
  pose proof (assign_copy_clones_first owns_two B A (int_ptr 2) (int_ptr 1)
                eq_refl eq_refl) as H.
  rewrite Hc in H. destruct H as [_ H]. rewrite H.
  vm_compute. reflexivity.
Defined.

Lemma clone_throw_leaves_source_witness :
  objs owns_bad !! A = Some (int_ptr 1) /\
  objs owns_bad !! B = None /\
  1%N <> nullptr /\
  cloner_call DefaultClone 1%N (heap owns_bad) = CloneThrow (heap owns_bad) /\
  clone A owns_bad =
    Throw (State (objs owns_bad) (heap owns_bad) [CloneCall DefaultClone 1%N]) /\
  value_ptr_copy B A owns_bad =
    Throw (State (objs owns_bad) (heap owns_bad) [CloneCall DefaultClone 1%N]).
Proof.
  split; [reflexivity |]. split; [reflexivity |]. split; [done |].
  split; [reflexivity |].
  pose proof (clone_throw_leaves_source owns_bad B A (int_ptr 1) (heap owns_bad)
                eq_refl eq_refl ltac:(done) eq_refl) as (Hc & Hk & _).
  split; [exact Hc | exact Hk].
Defined.

Lemma clone_is_fresh_and_equal_witness :
  objs owns_5 !! A = Some (int_ptr 1) /\
  heap owns_5 !! 1%N = Some 5%Z /\
  honours_clone (T := Z) DefaultClone /\
  exists q s1,
    clone A owns_5 = Ret q s1 /\
    q <> 1%N /\ heap s1 !! q = Some 5%Z /\ heap s1 !! 1%N = Some 5%Z /\
    objs s1 = objs owns_5.
Proof.
  split; [reflexivity |]. split; [reflexivity |].
  split; [apply default_clone_honours, Z_clone_same |].
  pose proof (proj2 (clone_is_fresh_and_equal owns_5 A (int_ptr 1) eq_refl) 5%Z
                ltac:(done) eq_refl
                (default_clone_honours DefaultClone Z_clone_same)) as H.
  destruct (clone A owns_5) as [q s1 | s1 |] eqn:Hc.
  - exists q, s1. destruct H as (H1 & _ & H3 & H4 & _ & H6). done.
  - exfalso. vm_compute in Hc. discriminate Hc.
  - destruct H.
Defined.

Lemma copy_is_deep_witness :
  objs owns_5 !! A = Some (int_ptr 1) /\
  objs owns_5 !! B = None /\
  exists s1,
    value_ptr_copy B A owns_5 = Ret tt s1 /\
    objs s1 !! A = Some (int_ptr 1) /\
    (exists s2, destructor B s1 = Ret tt s2 /\
                objs s2 = objs owns_5 /\ heap s2 = heap owns_5) /\
    (exists s3,
        bind (operator_star A) (fun l => store l 7%Z) s1 = Ret tt s3 /\
        bind (operator_star A) load s3 = Ret 7%Z s3 /\
        bind (operator_star B) load s3 = Ret 5%Z s3).
Proof.
  split; [reflexivity |]. split; [reflexivity |].
  pose proof (copy_is_deep owns_5 B A (int_ptr 1) eq_refl eq_refl
                ltac:(intros _; by exists 5%Z)
                (default_clone_honours DefaultClone Z_clone_same)
                (default_delete_accepts_null DefaultDelete)
                (default_delete_frees DefaultDelete)) as H.
  destruct (value_ptr_copy B A owns_5) as [[] s1 | s1 |] eqn:Hc.
  - exists s1. destruct H as (H1 & H2 & H3).
    split; [reflexivity |]. split; [exact H1 |]. split; [exact H2 |].
    exact (H3 5%Z 7%Z ltac:(done) eq_refl).
  - exfalso. vm_compute in Hc. discriminate Hc.
  - destruct H.
Defined.

Lemma assign_move_transfers_ownership_witness :
  objs owns_two !! B = Some (int_ptr 2) /\
  objs owns_two !! A = Some (int_ptr 1) /\
  B <> A /\
  exists s1,
    assign_move B A owns_two = Ret tt s1 /\
    get B s1 = Ret 1%N s1 /\
    get_cloner B s1 = Ret DefaultClone s1 /\
    get_deleter B s1 = Ret DefaultDelete s1 /\
    get A s1 = Ret nullptr s1 /\
    operator_bool A s1 = Ret false s1 /\
    trace s1 = [DeleteCall DefaultDelete 2%N].
Proof.
  split; [reflexivity |]. split; [reflexivity |]. split; [done |].
  exact (assign_move_transfers_ownership owns_two B A (int_ptr 2) (int_ptr 1)
           eq_refl eq_refl ltac:(done)).
Defined.


(** ** Ownership is an invariant *)

Section ownership_steps.
Context {T ClonerT DeleterT : Type}.
Context `{!Cloner T ClonerT, !Deleter T DeleterT}.
Implicit Types (s : state T ClonerT DeleterT) (v : value_ptr ClonerT DeleterT).
Implicit Types (o : gmap nat (value_ptr ClonerT DeleterT)) (h : gmap N T).
Implicit Types (t : list (event ClonerT DeleterT)).
Implicit Types (this that : nat) (p q : pointer).

(** A deleter that frees and accepts null, in one equation. *)
Lemma deleter_call_spec (d : DeleterT) p h :
  frees d -> accepts_null d ->
  deleter_call d p h = if decide (p = nullptr) then h else delete p h.
Proof.
  intros Hf Hn. case_decide as Hp; [subst p; apply Hn | by apply Hf].
Qed.

(** The log plays no part in ownership. *)
Lemma well_owned_trace o h t t' :
  well_owned (State o h t) -> well_owned (State o h t').
Proof. intros [He Hl]. split; [exact He | exact Hl]. Qed.

(** Storing a pointer in instance [i]: it is null, or live and held by no
    other instance. *)
Lemma well_owned_put o h t t' i p (c : ClonerT) (d : DeleterT) :
  well_owned (State o h t) ->
  (p <> nullptr ->
   is_Some (h !! p) /\
   forall j vj, j <> i -> o !! j = Some vj -> m_0 vj <> p) ->
  well_owned (State (<[i := tuple p c d]> o) h t').
Proof.
  intros [He Hl] Hp. split.
  - intros a b va vb. cbn [objs].
    destruct (decide (a = i)) as [-> | Ha], (decide (b = i)) as [-> | Hb];
      [done | | |].
    + rewrite lookup_insert_eq, lookup_insert_ne by done.
      intros [= <-] Hvb Hn E. cbn in *.
      destruct (Hp Hn) as [_ Hno]. by destruct (Hno _ _ Hb Hvb).
    + rewrite lookup_insert_ne, lookup_insert_eq by done.
      intros Hva [= <-] Hn E. cbn in *.
      assert (Hpn : p <> nullptr) by congruence.
      destruct (Hp Hpn) as [_ Hno]. by destruct (Hno _ _ Ha Hva).
    + rewrite !lookup_insert_ne by done. apply He.
  - intros a va. cbn [objs heap].
    destruct (decide (a = i)) as [-> | Ha].
    + rewrite lookup_insert_eq. intros [= <-] Hn. cbn in *.
      by destruct (Hp Hn).
    + rewrite lookup_insert_ne by done. apply Hl.
Qed.

(** Replacing the policies of an instance. *)
Lemma well_owned_policies o h t t' i v (c : ClonerT) (d : DeleterT) :
  well_owned (State o h t) -> o !! i = Some v ->
  well_owned (State (<[i := tuple (m_0 v) c d]> o) h t').
Proof.
  intros Hw Hv. apply (well_owned_put _ _ t); [done |].
  destruct Hw as [He Hl]. intros Hn. split.
  - by apply (Hl i v).
  - intros j vj Hj Hvj E. apply Hj. symmetry.
    apply (He i j v vj); [done | done | done | done].
Qed.

(** The storage of an instance goes away. *)
Lemma well_owned_drop o h t t' i :
  well_owned (State o h t) -> well_owned (State (delete i o) h t').
Proof.
  intros [He Hl]. split.
  - intros a b va vb. cbn [objs]. intros Ha Hb.
    apply lookup_delete_Some in Ha as [_ Ha].
    apply lookup_delete_Some in Hb as [_ Hb]. by apply He.
  - intros a va. cbn [objs heap]. intros Ha.
    apply lookup_delete_Some in Ha as [_ Ha]. exact (Hl a va Ha).
Qed.

(** A new object on the free store. *)
Lemma well_owned_alloc o h t t' q (x : T) :
  well_owned (State o h t) -> well_owned (State o (<[q := x]> h) t').
Proof.
  intros [He Hl]. split; [exact He |].
  intros a va Ha Hn. cbn [objs heap] in *.
  destruct (decide (q = m_0 va)) as [-> | Hq].
  - rewrite lookup_insert_eq. by eexists.
  - rewrite lookup_insert_ne by done. by apply (Hl a).
Qed.

(** A deleter call on a pointer no instance holds. *)
Lemma well_owned_deleted o h t t' (d : DeleterT) p :
  well_owned (State o h t) -> frees d -> accepts_null d ->
  (p <> nullptr -> unowned (State o h t) p) ->
  well_owned (State o (deleter_call d p h) t').
Proof.
  intros [He Hl] Hf Hn Hp. rewrite deleter_call_spec by done.
  case_decide as Hpn; [by split |].
  split; [exact He |].
  intros a va Ha Hnn. cbn [objs heap] in *.
  rewrite lookup_delete_ne; [by apply (Hl a) |].
  intros E. exact (Hp Hpn a va Ha (eq_sym E)).
Qed.

End ownership_steps.

(** ** Further properties of the member functions *)

Section more_properties.
Context {T ClonerT DeleterT : Type}.
Context `{!Cloner T ClonerT, !Deleter T DeleterT}.
Implicit Types (s : state T ClonerT DeleterT) (v : value_ptr ClonerT DeleterT).
Implicit Types (this that : nat) (p q : pointer).

Lemma swap_at s this that a b :
  objs s !! this = Some a -> objs s !! that = Some b ->
  swap this that s =
    Ret tt (State (<[that := a]> (<[this := b]> (objs s))) (heap s) (trace s)).
Proof.
  intros Ha Hb. unfold swap.
  rewrite (bind_Ret _ _ _ _ _ (self_at _ _ _ Ha)).
  by rewrite (bind_Ret _ _ _ _ _ (self_at _ _ _ Hb)).
Qed.

(** After a swap, instance [i] is what the other of the two was. *)
Lemma swap_lookup (o : gmap nat (value_ptr ClonerT DeleterT)) this that a b i :
  o !! this = Some a -> o !! that = Some b ->
  <[that := a]> (<[this := b]> o) !! i =
    o !! (if decide (i = that) then this
          else if decide (i = this) then that else i).
Proof.
  intros Ha Hb. destruct (decide (i = that)) as [-> | Hi].
  - by rewrite lookup_insert_eq.
  - rewrite lookup_insert_ne by done.
    destruct (decide (i = this)) as [-> | Hj].
    + by rewrite lookup_insert_eq.
    + by rewrite lookup_insert_ne.
Qed.

(** X1: [swap] exchanges the two tuples (pointer, cloner and deleter) and
    calls no policy; swapping again gives back the state before the first
    swap.  Swapping an instance with itself changes nothing. *)
Theorem swap_exchanges_and_undoes s this that a b :
  objs s !! this = Some a ->
  objs s !! that = Some b ->
  exists s1,
    swap this that s = Ret tt s1 /\
    objs s1 !! this = Some b /\
    objs s1 !! that = Some a /\
    heap s1 = heap s /\ trace s1 = trace s /\
    swap this that s1 = Ret tt s /\
    (this = that -> s1 = s).
Proof.
  intros Ha Hb. eexists. split; [by apply swap_at |].
  assert (Hthis : <[that := a]> (<[this := b]> (objs s)) !! this = Some b).
  { rewrite (swap_lookup _ _ _ _ _ _ Ha Hb).
    case_decide; [by subst | by rewrite decide_True]. }
  assert (Hthat : <[that := a]> (<[this := b]> (objs s)) !! that = Some a)
    by apply lookup_insert_eq.
  assert (Hback : <[that := b]> (<[this := a]>
                    (<[that := a]> (<[this := b]> (objs s)))) = objs s).
  { apply map_eq. intros i.
    destruct (decide (i = that)) as [-> | ?];
      [by rewrite lookup_insert_eq |].
    destruct (decide (i = this)) as [-> | ?]; by simplify_map_eq. }
  cbn [objs heap trace]. split; [done |]. split; [done |].
  split; [done |]. split; [done |]. split.
  - rewrite (swap_at _ _ _ b a) by done. cbn [objs heap trace].
    rewrite Hback. by destruct s.
  - intros ->. assert (a = b) as -> by congruence.
    rewrite insert_insert_eq, insert_id by done. by destruct s.
Qed.

(** X2: [swap] keeps ownership exclusive and every held pointer live. *)
Theorem swap_keeps_ownership s this that a b :
  objs s !! this = Some a ->
  objs s !! that = Some b ->
  well_owned s ->
  exists s1, swap this that s = Ret tt s1 /\ well_owned s1.
Proof.
  intros Ha Hb [He Hl]. eexists. split; [by apply swap_at |].
  pose (f := fun i : nat =>
               if decide (i = that) then this
               else if decide (i = this) then that else i).
  assert (Hinj : forall i j, f i = f j -> i = j).
  { intros i j. unfold f. repeat case_decide; congruence. }
  split.
  - intros i j vi vj. cbn [objs].
    rewrite !(swap_lookup _ _ _ _ _ _ Ha Hb). intros Hi Hj Hn E.
    apply Hinj. by apply (He _ _ vi vj).
  - intros i vi. cbn [objs heap].
    rewrite (swap_lookup _ _ _ _ _ _ Ha Hb). apply Hl.
Qed.

(** X3: [reset(p)] is idempotent: a second [reset(p)] finds [p] held and
    does nothing, whatever the deleter does. *)
Theorem reset_idempotent s this v p :
  objs s !! this = Some v ->
  bind (reset this p) (fun _ => reset this p) s = reset this p s.
Proof.
  intros Hv. destruct (decide (p = m_0 v)) as [-> | Hp].
  - rewrite (bind_Ret _ _ _ _ _ (reset_same _ _ _ Hv)).
    reflexivity.
  - rewrite (reset_other _ _ _ _ Hv Hp).
    erewrite bind_Ret by (by apply reset_other).
    apply (reset_same _ this (tuple p (m_1 v) (m_2 v))). vp_lookup.
Qed.

(** X4: an explicit [reset()] before the destructor changes nothing: the
    two together do what the destructor alone does, which for an instance
    holding a pointer is one deleter call on it. *)
Theorem reset_then_destructor s this v :
  objs s !! this = Some v ->
  bind (reset this nullptr) (fun _ => destructor this) s = destructor this s /\
  (m_0 v <> nullptr ->
   destructor this s =
     Ret tt (State (delete this (objs s))
                   (deleter_call (m_2 v) (m_0 v) (heap s))
                   (trace s ++ [DeleteCall (m_2 v) (m_0 v)]))) /\
  (m_0 v = nullptr ->
   destructor this s =
     Ret tt (State (delete this (objs s)) (heap s) (trace s))).
Proof.
  intros Hv. split; [| split; [by apply destructor_held
                               | by apply destructor_empty]].
  destruct (decide (m_0 v = nullptr)) as [H0 | H0].
  - rewrite <- H0. by rewrite (bind_Ret _ _ _ _ _ (reset_same _ _ _ Hv)).
  - rewrite (destructor_held _ _ _ Hv H0).
    rewrite (bind_Ret _ _ _ _ _
               (reset_other _ _ _ nullptr Hv (not_eq_sym H0))).
    rewrite (destructor_empty _ this (tuple nullptr (m_1 v) (m_2 v)));
      [| vp_lookup | done].
    cbn [objs heap trace]. by rewrite delete_insert_eq.
Qed.

Lemma deleted_app (t1 t2 : list (event ClonerT DeleterT)) :
  deleted (t1 ++ t2) = deleted t1 ++ deleted t2.
Proof. apply omap_app. Qed.

(** X5: [clone()] is const: whether the cloner returns or throws, every
    instance is as before, no deleter call was made, and the log grew by at
    most the one cloner call. *)
Theorem clone_is_const s this v :
  objs s !! this = Some v ->
  match clone this s with
  | Ret _ s1 | Throw s1 =>
      objs s1 = objs s /\
      deleted (trace s1) = deleted (trace s) /\
      (trace s1 = trace s \/
       trace s1 = trace s ++ [CloneCall (m_1 v) (m_0 v)])
  | Undef => m_0 v <> nullptr
  end.
Proof.
  intros Hv. destruct (decide (m_0 v = nullptr)) as [H0 | H0].
  - rewrite (clone_empty _ _ _ Hv H0). auto.
  - rewrite (clone_held _ _ _ Hv H0).
    pose proof (invoke_cloner_objs (m_1 v) (m_0 v) s) as Hi.
    destruct (invoke_cloner (m_1 v) (m_0 v) s) as [q s1 | s1 |];
      [| | done].
    + destruct Hi as [Ho Ht]. rewrite Ht, deleted_app. cbn.
      rewrite app_nil_r. auto.
    + destruct Hi as [Ho Ht]. rewrite Ht, deleted_app. cbn.
      rewrite app_nil_r. auto.
Qed.

(** X6: the policies handed to a constructor are the ones the instance
    uses: after [value_ptr(ptr, d, c)], [clone()] is the call [c(ptr)] and
    the destructor makes the one call [d(ptr)]; [value_ptr(ptr, d)],
    [value_ptr(ptr, c)] and [value_ptr(ptr)] fill the missing policy with a
    default-constructed one. *)
Theorem constructed_policies_are_used s this p (c : ClonerT) (d : DeleterT) :
  p <> nullptr ->
  let made := fun c' d' =>
    State (<[this := tuple p c' d']> (objs s)) (heap s) (trace s) in
  value_ptr_both this p d c s = Ret tt (made c d) /\
  value_ptr_deleter this p d s = Ret tt (made cloner_init d) /\
  value_ptr_cloner this p c s = Ret tt (made c deleter_init) /\
  value_ptr_from this p s = Ret tt (made cloner_init deleter_init) /\
  clone this (made c d) = invoke_cloner c p (made c d) /\
  destructor this (made c d) =
    Ret tt (State (delete this (objs s)) (deleter_call d p (heap s))
                  (trace s ++ [DeleteCall d p])).
Proof.
  intros Hp made. repeat (split; [reflexivity |]).
  assert (Hv : objs (made c d) !! this = Some (tuple p c d))
    by apply lookup_insert_eq.
  split.
  - by rewrite (clone_held _ _ _ Hv).
  - rewrite (destructor_held _ _ _ Hv) by done.
    subst made. cbn [objs heap trace m_0 m_2]. by rewrite delete_insert_eq.
Qed.

(** X7: the references [get_deleter()] and [get_cloner()] return are to
    the stored policies: after assigning [d] through [get_deleter()], the
    destructor calls [d] on the held pointer, not the deleter stored before;
    after assigning [c] through [get_cloner()], [clone()] is the call of
    [c].  The pointer held is not affected. *)
Theorem assigned_policies_are_used s this v (c : ClonerT) (d : DeleterT) :
  objs s !! this = Some v ->
  m_0 v <> nullptr ->
  bind (set_deleter this d) (fun _ => get this) s =
    Ret (m_0 v)
        (State (<[this := tuple (m_0 v) (m_1 v) d]> (objs s))
               (heap s) (trace s)) /\
  bind (set_deleter this d) (fun _ => destructor this) s =
    Ret tt (State (delete this (objs s))
                  (deleter_call d (m_0 v) (heap s))
                  (trace s ++ [DeleteCall d (m_0 v)])) /\
  bind (set_cloner this c) (fun _ => clone this) s =
    invoke_cloner c (m_0 v)
      (State (<[this := tuple (m_0 v) c (m_2 v)]> (objs s))
             (heap s) (trace s)).
Proof.
  intros Hv H0. split; [| split].
  - vp_step. by erewrite get_at by vp_lookup.
  - vp_step.
    rewrite (destructor_held _ this (tuple (m_0 v) (m_1 v) d));
      [| vp_lookup | done].
    cbn [objs heap trace m_0 m_2]. by rewrite delete_insert_eq.
  - vp_step.
    by rewrite (clone_held _ this (tuple (m_0 v) c (m_2 v)));
      [| vp_lookup | done].
Qed.

End more_properties.

(** ** Ownership through the life of an instance *)

Section ownership_properties.
Context {T ClonerT DeleterT : Type}.
Context `{!Cloner T ClonerT, !Deleter T DeleterT}.
Implicit Types (s : state T ClonerT DeleterT) (v : value_ptr ClonerT DeleterT).
Implicit Types (this that : nat) (p q : pointer).

(** In a well-owned state the pointer of one instance is held by no other
    instance. *)
Lemma others_do_not_hold s this v :
  well_owned s -> objs s !! this = Some v -> m_0 v <> nullptr ->
  forall j vj, j <> this -> objs s !! j = Some vj -> m_0 vj <> m_0 v.
Proof.
  intros [He _] Hv Hn j vj Hj Hvj E. apply Hj. symmetry.
  by apply (He this j v vj).
Qed.

(** X8: the constructor from a raw pointer takes ownership: given a live
    object that no instance holds, the new instance holds it and ownership
    stays exclusive. *)
Theorem value_ptr_from_takes_ownership s this p :
  objs s !! this = None ->
  well_owned s ->
  is_Some (heap s !! p) ->
  unowned s p ->
  exists s1,
    value_ptr_from this p s = Ret tt s1 /\
    get this s1 = Ret p s1 /\
    well_owned s1 /\
    heap s1 = heap s /\ trace s1 = trace s.
Proof.
  intros Hthis Hw Hlive Hun.
  exists (State (<[this := tuple p cloner_init deleter_init]> (objs s))
                (heap s) (trace s)).
  split; [reflexivity |].
  split; [by erewrite get_at by vp_lookup |].
  split; [| done]. destruct s as [o h t]. cbn [objs heap trace] in *.
  apply (well_owned_put _ _ t); [done |].
  intros _. split; [done |]. intros j vj _ Hj. by apply (Hun j vj).
Qed.

(** X9: in a well-owned state [operator->] returns [get()], and
    [operator*] yields the object at [get()] exactly when the instance is
    not empty; on an empty instance it has no defined result. *)
Theorem dereference_needs_non_empty s this v :
  objs s !! this = Some v ->
  well_owned s ->
  operator_arrow this s = Ret (m_0 v) s /\
  (m_0 v <> nullptr -> operator_star this s = Ret (m_0 v) s) /\
  (m_0 v = nullptr -> operator_star this s = Undef).
Proof.
  intros Hv [_ Hl]. split; [by apply get_at |]. split.
  - intros Hn. destruct (Hl _ _ Hv Hn) as [x Hx].
    by apply (operator_star_at _ _ _ x).
  - intros H0. unfold operator_star.
    rewrite (bind_Ret _ _ _ _ _ (get_at _ _ _ Hv)).
    by rewrite decide_True.
Qed.

(** X10: [reset(p)] with a pointer to a live object that no instance
    holds (or with null), on an instance whose deleter frees what it is
    handed and accepts null: ownership stays exclusive and live, the object
    held before is gone from the free store, and every other object is
    untouched. *)
Theorem reset_keeps_ownership s this v p :
  objs s !! this = Some v ->
  well_owned s ->
  frees (m_2 v) -> accepts_null (m_2 v) ->
  (p <> nullptr -> is_Some (heap s !! p) /\ unowned s p) ->
  exists s1,
    reset this p s = Ret tt s1 /\
    get this s1 = Ret p s1 /\
    well_owned s1 /\
    (m_0 v <> nullptr -> p <> m_0 v -> heap s1 !! m_0 v = None) /\
    (forall q, q <> m_0 v -> heap s1 !! q = heap s !! q).
Proof.
  intros Hv Hw Hf Hn Hp.
  destruct (decide (p = m_0 v)) as [-> | Hne].
  - exists s. split; [by apply reset_same |].
    split; [by apply get_at |]. done.
  - eexists. split; [by apply reset_other |].
    split; [by erewrite get_at by vp_lookup |].
    pose proof (others_do_not_hold _ _ _ Hw Hv) as Hoth.
    destruct s as [o h t]. cbn [objs heap trace] in *.
    split; [| split].
    + apply (well_owned_deleted _ _ t); [| done | done |].
      * apply (well_owned_put _ _ t); [done |].
        intros Hpn. destruct (Hp Hpn) as [Hlive Hun].
        split; [done |]. intros j vj _ Hj. by apply (Hun j vj).
      * intros Hvn j vj. cbn [objs].
        destruct (decide (j = this)) as [-> | Hj].
        -- rewrite lookup_insert_eq. intros [= <-]. done.
        -- rewrite lookup_insert_ne by done. by apply Hoth.
    + intros Hvn _. rewrite deleter_call_spec by done.
      rewrite decide_False by done. apply lookup_delete_eq.
    + intros q Hq. rewrite deleter_call_spec by done.
      case_decide; [done |]. by rewrite lookup_delete_ne.
Qed.

(** X11: [release()] hands the object over: afterwards no instance holds
    the released pointer, the object is still on the free store, and
    ownership among the instances is still exclusive and live. *)
Theorem release_hands_over s this v :
  objs s !! this = Some v ->
  well_owned s ->
  exists s1,
    release this s = Ret (m_0 v) s1 /\
    well_owned s1 /\
    (m_0 v <> nullptr -> unowned s1 (m_0 v)) /\
    heap s1 = heap s /\ trace s1 = trace s.
Proof.
  intros Hv Hw. eexists. split; [by apply release_at |].
  pose proof (others_do_not_hold _ _ _ Hw Hv) as Hoth.
  destruct s as [o h t]. cbn [objs heap trace] in *.
  split; [| split; [| done]].
  - apply (well_owned_put _ _ t); [done | done].
  - intros Hn j vj. cbn [objs].
    destruct (decide (j = this)) as [-> | Hj].
    + rewrite lookup_insert_eq. intros [= <-]. cbn. congruence.
    + rewrite lookup_insert_ne by done. by apply Hoth.
Qed.

(** X12: the destructor frees its own object and nothing else: with a
    deleter that frees what it is handed and accepts null, the instance is
    gone, the object it held is gone from the free store, the remaining
    instances are unchanged with their objects as they were, and ownership
    is still exclusive and live. *)
Theorem destructor_frees_only_its_own s this v :
  objs s !! this = Some v ->
  well_owned s ->
  frees (m_2 v) -> accepts_null (m_2 v) ->
  exists s1,
    destructor this s = Ret tt s1 /\
    objs s1 = delete this (objs s) /\
    well_owned s1 /\
    (m_0 v <> nullptr -> heap s1 !! m_0 v = None) /\
    (forall j vj, objs s1 !! j = Some vj ->
                  heap s1 !! m_0 vj = heap s !! m_0 vj).
Proof.
  intros Hv Hw Hf Hn.
  pose proof (others_do_not_hold _ _ _ Hw Hv) as Hoth.
  destruct (decide (m_0 v = nullptr)) as [H0 | H0].
  - eexists. split; [by apply (destructor_empty _ _ v) |].
    split; [done |]. destruct s as [o h t]. cbn [objs heap trace] in *.
    split; [by apply (well_owned_drop _ _ t) |]. done.
  - eexists. split; [by apply (destructor_held _ _ v) |].
    split; [done |]. destruct s as [o h t]. cbn [objs heap trace] in *.
    split; [| split].
    + apply (well_owned_deleted _ _ t); [| done | done |].
      * by apply (well_owned_drop _ _ t).
      * intros _ j vj. cbn [objs]. intros Hj.
        apply lookup_delete_Some in Hj as [Hj Hvj].
        apply (Hoth H0 j vj); [congruence | done].
    + intros _. rewrite deleter_call_spec, decide_False by done.
      apply lookup_delete_eq.
    + intros j vj Hj. apply lookup_delete_Some in Hj as [Hj Hvj].
      rewrite deleter_call_spec, decide_False by done.
      rewrite lookup_delete_ne; [done |].
      intros E. apply (Hoth H0 j vj); [congruence | done | by symmetry].
Qed.

End ownership_properties.

(** ** Moving and copying between instances *)

Section transfer_properties.
Context {T ClonerT DeleterT : Type}.
Context `{!Cloner T ClonerT, !Deleter T DeleterT}.
Implicit Types (s : state T ClonerT DeleterT) (v : value_ptr ClonerT DeleterT).
Implicit Types (this that : nat) (p q : pointer).

(** Copy assignment once [clone()] has returned [p]. *)
Lemma assign_copy_after_clone s s1 this that w v p :
  objs s !! this = Some w -> objs s !! that = Some v ->
  clone that s = Ret p s1 -> objs s1 = objs s ->
  assign_copy this that s =
    Ret tt (State (<[this := tuple p (m_1 v) (m_2 v)]> (objs s))
                  (if decide (p = m_0 w) then heap s1
                   else deleter_call (m_2 w) (m_0 w) (heap s1))
                  (trace s1 ++
                     if decide (p = m_0 w) then []
                     else [DeleteCall (m_2 w) (m_0 w)])).
Proof.
  intros Hw Hv Hc Ho. unfold assign_copy. rewrite (bind_Ret _ _ _ _ _ Hc).
  assert (Hw1 : objs s1 !! this = Some w) by (by rewrite Ho).
  assert (Hv1 : objs s1 !! that = Some v) by (by rewrite Ho).
  destruct (decide (p = m_0 w)) as [-> | Hp].
  - rewrite (bind_Ret _ _ _ _ _ (reset_same _ _ _ Hw1)).
    destruct (decide (this = that)) as [-> | Hne]; repeat vp_step.
    + rewrite insert_insert_eq, app_nil_r, Ho.
      by replace w with v by congruence.
    + by rewrite insert_insert_eq, app_nil_r, Ho.
  - rewrite (bind_Ret _ _ _ _ _ (reset_other _ _ _ _ Hw1 Hp)).
    destruct (decide (this = that)) as [-> | Hne]; repeat vp_step.
    + rewrite !insert_insert_eq, Ho.
      by replace w with v by congruence.
    + by rewrite !insert_insert_eq, Ho.
Qed.

(** X13: after [w = std::move(v)] between two instances holding different
    pointers, destroying both hands each of the two pointers to a deleter
    exactly once: [w]'s old pointer to the deleter [w] had, during the
    assignment, and the pointer moved in to the deleter that came with it
    from [v], in [w]'s destructor.  The destructor of the moved-from [v]
    calls nothing. *)
Theorem assign_move_then_destroy s this that w v :
  objs s !! this = Some w ->
  objs s !! that = Some v ->
  this <> that ->
  m_0 v <> nullptr ->
  m_0 v <> m_0 w ->
  bind (assign_move this that)
       (fun _ => bind (destructor this) (fun _ => destructor that)) s =
    Ret tt (State (delete that (delete this (objs s)))
                  (deleter_call (m_2 v) (m_0 v)
                     (deleter_call (m_2 w) (m_0 w) (heap s)))
                  (trace s ++ [DeleteCall (m_2 w) (m_0 w);
                               DeleteCall (m_2 v) (m_0 v)])).
Proof.
  intros Hw Hv Hne Hn Hd.
  rewrite (bind_Ret _ _ _ _ _ (assign_move_transfers _ _ _ _ _ Hw Hv Hne)).
  rewrite !decide_False by done.
  erewrite bind_Ret; last first.
  { apply (destructor_held _ this (tuple (m_0 v) (m_1 v) (m_2 v)));
      [vp_lookup | done]. }
  cbn [objs heap trace m_0 m_2].
  rewrite (destructor_empty _ that
             (tuple nullptr (cloner_moved (m_1 v)) (deleter_moved (m_2 v))));
    [| cbn [objs]; rewrite lookup_delete_ne by done; apply lookup_insert_eq
     | done].
  cbn [objs heap trace]. rewrite <- app_assoc. do 2 f_equal.
  apply map_eq. intros i.
  destruct (decide (i = that)) as [-> | ?]; [by rewrite !lookup_delete_eq |].
  destruct (decide (i = this)) as [-> | ?]; by simplify_map_eq.
Qed.

(** X14: moving there and back, [w = std::move(v); v = std::move(w);],
    gives [v] back exactly the pointer, cloner and deleter it had and leaves
    [w] empty; the object [w] held at the start went to [w]'s deleter, and
    the second assignment calls a deleter on the null pointer only. *)
Theorem assign_move_there_and_back s this that w v :
  objs s !! this = Some w ->
  objs s !! that = Some v ->
  this <> that ->
  m_0 v <> nullptr ->
  m_0 v <> m_0 w ->
  exists s2,
    bind (assign_move this that) (fun _ => assign_move that this) s =
      Ret tt s2 /\
    objs s2 !! that = Some v /\
    get this s2 = Ret nullptr s2 /\
    trace s2 = trace s ++ [DeleteCall (m_2 w) (m_0 w);
                           DeleteCall (deleter_moved (m_2 v)) nullptr].
Proof.
  intros Hw Hv Hne Hn Hd. eexists. split.
  - rewrite (bind_Ret _ _ _ _ _ (assign_move_transfers _ _ _ _ _ Hw Hv Hne)).
    rewrite !decide_False by done.
    apply (assign_move_transfers _ that this
             (tuple nullptr (cloner_moved (m_1 v)) (deleter_moved (m_2 v)))
             (tuple (m_0 v) (m_1 v) (m_2 v))); [vp_lookup | vp_lookup | done].
  - cbn [objs heap trace m_0 m_1 m_2].
    rewrite !decide_False by done. split; [| split].
    + rewrite lookup_insert_ne by done. rewrite lookup_insert_eq.
      by destruct v.
    + by erewrite get_at by vp_lookup.
    + by rewrite <- app_assoc.
Qed.

(** X15: move assignment between two instances keeps ownership exclusive
    and live when the target's deleter frees what it is handed and accepts
    null: the object the target held is gone and the object moved in is
    untouched. *)
Theorem assign_move_keeps_ownership s this that w v :
  objs s !! this = Some w ->
  objs s !! that = Some v ->
  this <> that ->
  well_owned s ->
  frees (m_2 w) -> accepts_null (m_2 w) ->
  exists s1,
    assign_move this that s = Ret tt s1 /\
    well_owned s1 /\
    get this s1 = Ret (m_0 v) s1 /\
    get that s1 = Ret nullptr s1 /\
    (m_0 w <> nullptr -> heap s1 !! m_0 w = None) /\
    (m_0 v <> nullptr -> heap s1 !! m_0 v = heap s !! m_0 v).
Proof.
  intros Hw Hv Hne Hown Hf Hnull.
  pose proof (others_do_not_hold _ _ _ Hown Hw) as Hothw.
  pose proof (others_do_not_hold _ _ _ Hown Hv) as Hothv.
  assert (Hvlive : m_0 v <> nullptr -> is_Some (heap s !! m_0 v))
    by (destruct Hown as [_ Hl]; apply (Hl that v Hv)).
  eexists. split; [by apply assign_move_transfers |].
  split; [| split; [by erewrite get_at by vp_lookup
                   | split; [by erewrite get_at by vp_lookup |]]].
  - destruct s as [o h t]. cbn [objs heap trace] in *.
    rewrite insert_insert_ne by congruence.
    assert (Hput : well_owned
              (State (<[this := tuple (m_0 v) (m_1 v) (m_2 v)]>
                        (<[that := tuple nullptr (cloner_moved (m_1 v))
                                         (deleter_moved (m_2 v))]> o)) h t)).
    { apply (well_owned_put _ _ t).
      - by apply (well_owned_put _ _ t).
      - intros Hn. split; [by apply Hvlive |].
        intros j vj Hj. destruct (decide (j = that)) as [-> | Hjt].
        + rewrite lookup_insert_eq. intros [= <-]. cbn. congruence.
        + rewrite lookup_insert_ne by done. by apply Hothv. }
    case_decide as E; [by apply (well_owned_trace _ _ t) |].
    apply (well_owned_deleted _ _ t); [done | done | done |].
    intros Hwn j vj. cbn [objs].
    destruct (decide (j = this)) as [-> | Hjt].
    { rewrite lookup_insert_eq. intros [= <-]. done. }
    rewrite lookup_insert_ne by done.
    destruct (decide (j = that)) as [-> | Hjt'].
    { rewrite lookup_insert_eq. intros [= <-]. cbn. congruence. }
    rewrite lookup_insert_ne by done. by apply Hothw.
  - cbn [heap]. split.
    + intros Hwn. case_decide as E.
      * exfalso. apply Hne. destruct Hown as [He _].
        by apply (He this that w v).
      * rewrite deleter_call_spec, decide_False by done.
        apply lookup_delete_eq.
    + intros Hvn. case_decide as E; [done |].
      rewrite deleter_call_spec by done. case_decide; [done |].
      by rewrite lookup_delete_ne by congruence.
Qed.

End transfer_properties.

Section copy_properties.
Context {T ClonerT DeleterT : Type}.
Context `{!Cloner T ClonerT, !Deleter T DeleterT}.
Implicit Types (s : state T ClonerT DeleterT) (v : value_ptr ClonerT DeleterT).
Implicit Types (this that : nat) (p q : pointer).

(** X16: copy construction followed by both destructors, when the cloner
    returned a non-null [q] other than the source's pointer: the log shows
    the cloner call, the call of the value-initialised deleter on null made
    inside the constructor, and then one deleter call for the clone and one
    for the original, both by the deleter of the source (the copy carries a
    copy of it).  The pointers handed to a deleter are null, [q] and the
    source's pointer, each exactly once. *)
Theorem copy_then_destroy_both s this that v q h1 :
  objs s !! that = Some v ->
  objs s !! this = None ->
  m_0 v <> nullptr ->
  cloner_call (m_1 v) (m_0 v) (heap s) = CloneRet q h1 ->
  q <> nullptr ->
  q <> m_0 v ->
  let s3 :=
    State (delete that (objs s))
          (deleter_call (m_2 v) (m_0 v)
             (deleter_call (m_2 v) q
                (deleter_call deleter_init nullptr h1)))
          (trace s ++ [CloneCall (m_1 v) (m_0 v);
                       DeleteCall deleter_init nullptr;
                       DeleteCall (m_2 v) q;
                       DeleteCall (m_2 v) (m_0 v)]) in
  bind (value_ptr_copy this that)
       (fun _ => bind (destructor this) (fun _ => destructor that)) s =
    Ret tt s3 /\
  deleted (trace s3) = deleted (trace s) ++ [nullptr; q; m_0 v] /\
  NoDup [nullptr; q; m_0 v].
Proof.
  intros Hv Hthis H0 Hcall Hq Hqp s3.
  assert (Hne : this <> that) by congruence.
  split; [| split].
  - rewrite (bind_Ret _ _ _ _ _
               (value_ptr_copy_ret _ _ _ _ _ _ Hv Hne H0 Hcall Hq)).
    erewrite bind_Ret; last first.
    { apply (destructor_held _ this (tuple q (m_1 v) (m_2 v)));
        [vp_lookup | done]. }
    cbn [objs heap trace m_0 m_2].
    rewrite (destructor_held _ that v);
      [| cbn [objs]; rewrite lookup_delete_ne, lookup_insert_ne by done;
         exact Hv
       | done].
    cbn [objs heap trace]. rewrite <- !app_assoc. cbn [app].
    subst s3. do 2 f_equal. by rewrite delete_insert_id.
  - subst s3. cbn [trace]. by rewrite deleted_app.
  - apply NoDup_cons. split.
    + intros Hin. apply elem_of_cons in Hin as [E | Hin]; [congruence |].
      apply list_elem_of_singleton in Hin. congruence.
    + apply NoDup_cons. split; [| apply NoDup_singleton].
      intros Hin. apply list_elem_of_singleton in Hin. congruence.
Qed.

(** X17: copy assignment from an empty instance calls no cloner: the
    target's object goes to the target's deleter and the target is left
    empty with copies of the source's policies. *)
Theorem assign_copy_from_empty s this that w v :
  objs s !! this = Some w ->
  objs s !! that = Some v ->
  m_0 v = nullptr ->
  m_0 w <> nullptr ->
  assign_copy this that s =
    Ret tt (State (<[this := tuple nullptr (m_1 v) (m_2 v)]> (objs s))
                  (deleter_call (m_2 w) (m_0 w) (heap s))
                  (trace s ++ [DeleteCall (m_2 w) (m_0 w)])).
Proof.
  intros Hw Hv H0 Hn.
  rewrite (assign_copy_after_clone _ _ _ _ _ _ _ Hw Hv
             (clone_empty _ _ _ Hv H0) eq_refl).
  by rewrite !decide_False by (unfold nullptr in *; congruence).
Qed.

(** X18: self copy assignment [v = v] is safe: with a cloner that honours
    its contract and a deleter that frees what it is handed, the clone is
    made before the held object is deleted, so [v] ends up holding a new
    pointer to an object of the same value and [*v] reads that value; when
    the cloner throws, nothing has changed. *)
Theorem self_assign_copy_is_safe s this v (x : T) :
  objs s !! this = Some v ->
  m_0 v <> nullptr ->
  heap s !! m_0 v = Some x ->
  honours_clone (m_1 v) ->
  frees (m_2 v) ->
  match assign_copy this this s with
  | Ret _ s1 =>
      exists q,
        objs s1 = <[this := tuple q (m_1 v) (m_2 v)]> (objs s) /\
        q <> m_0 v /\ q <> nullptr /\
        heap s1 !! q = Some x /\
        heap s1 !! m_0 v = None /\
        bind (operator_star this) load s1 = Ret x s1
  | Throw s1 => objs s1 = objs s /\ heap s1 = heap s
  | Undef => False
  end.
Proof.
  intros Hv H0 Hx Hhon Hf. pose proof (Hhon _ _ _ Hx) as Hc.
  destruct (cloner_call (m_1 v) (m_0 v) (heap s)) as [q h | h |] eqn:Hcall;
    [| | done].
  - destruct Hc as (Hq & Hfresh & ->).
    assert (Hqp : q <> m_0 v) by congruence.
    rewrite (assign_copy_after_clone _ _ _ _ _ _ _ Hv Hv
               (clone_ret _ _ _ _ _ Hv H0 Hcall) eq_refl).
    rewrite !decide_False by done. exists q. cbn [objs heap trace].
    rewrite (Hf _ _ H0).
    split; [done |]. split; [done |]. split; [done |].
    assert (Hlq : delete (m_0 v) (<[q := x]> (heap s)) !! q = Some x).
    { rewrite lookup_delete_ne by congruence. apply lookup_insert_eq. }
    split; [exact Hlq |]. split; [apply lookup_delete_eq |].
    erewrite bind_Ret; last first.
    { eapply (operator_star_at _ this (tuple q (m_1 v) (m_2 v)));
        [vp_lookup | done | exact Hlq]. }
    by apply load_at.
  - unfold assign_copy.
    rewrite (bind_Throw _ _ _ _ (clone_throw _ _ _ _ Hv H0 Hcall)).
    by subst h.
Qed.

(** X19: copy assignment keeps ownership exclusive and live, whether the
    clone returns or throws and also when target and source are one
    instance, for a cloner that honours its contract and a target deleter
    that frees what it is handed and accepts null. *)
Theorem assign_copy_keeps_ownership s this that w v :
  objs s !! this = Some w ->
  objs s !! that = Some v ->
  well_owned s ->
  honours_clone (m_1 v) ->
  frees (m_2 w) -> accepts_null (m_2 w) ->
  match assign_copy this that s with
  | Ret _ s1 | Throw s1 => well_owned s1
  | Undef => False
  end.
Proof.
  intros Hw Hv Hown Hhon Hf Hnull.
  pose proof (others_do_not_hold _ _ _ Hown Hw) as Hothw.
  assert (Hfree : forall o' p c d t',
    o' = <[this := tuple p c d]> (objs s) -> p <> m_0 w ->
    forall h', well_owned (State o' h' (trace s)) ->
    well_owned (State o' (deleter_call (m_2 w) (m_0 w) h') t')).
  { intros o' p c d t' -> Hp h' Ho'.
    apply (well_owned_deleted _ _ (trace s)); [done | done | done |].
    intros Hwn j vj. cbn [objs].
    destruct (decide (j = this)) as [-> | Hj].
    - rewrite lookup_insert_eq. by intros [= <-].
    - rewrite lookup_insert_ne by done. by apply Hothw. }
  destruct (decide (m_0 v = nullptr)) as [H0 | H0].
  - rewrite (assign_copy_after_clone _ _ _ _ _ _ _ Hw Hv
               (clone_empty _ _ _ Hv H0) eq_refl).
    assert (Hput : forall t', well_owned
              (State (<[this := tuple nullptr (m_1 v) (m_2 v)]> (objs s))
                     (heap s) t')).
    { intros t'. destruct s as [o h t].
      by apply (well_owned_put _ _ t). }
    case_decide as E; [apply Hput |].
    eapply Hfree; [reflexivity | done | apply Hput].
  - destruct Hown as [He Hl]. destruct (Hl _ _ Hv H0) as [x Hx].
    pose proof (Hhon _ _ _ Hx) as Hc.
    destruct (cloner_call (m_1 v) (m_0 v) (heap s)) as [q h | h |]
      eqn:Hcall; [| | done].
    + destruct Hc as (Hq & Hfresh & ->).
      rewrite (assign_copy_after_clone _ _ _ _ _ _ _ Hw Hv
                 (clone_ret _ _ _ _ _ Hv H0 Hcall) eq_refl).
      cbn [objs heap trace].
      assert (Hnone : forall j vj, objs s !! j = Some vj -> m_0 vj <> q).
      { intros j vj Hj E. subst q.
        destruct (Hl _ _ Hj Hq) as [y Hy]. congruence. }
      assert (Hput : well_owned
                (State (<[this := tuple q (m_1 v) (m_2 v)]> (objs s))
                       (<[q := x]> (heap s)) (trace s))).
      { apply (well_owned_put _ _ (trace s)).
        - apply (well_owned_alloc _ _ (trace s)). by destruct s.
        - intros _. split; [rewrite lookup_insert_eq; by eexists |].
          intros j vj _ Hj. by apply (Hnone j vj). }
      rewrite !decide_False by (intros E; by apply (Hnone this w)).
      eapply Hfree; [reflexivity | | exact Hput].
      intros E. by apply (Hnone this w).
    + unfold assign_copy.
      rewrite (bind_Throw _ _ _ _ (clone_throw _ _ _ _ Hv H0 Hcall)).
      subst h. destruct s as [o h t]. by apply (well_owned_trace _ _ t).
Qed.

(** X20: copy construction keeps ownership exclusive and live: the new
    instance holds a pointer no other instance holds (or is empty when the
    source is), and when the cloner throws the state is well owned as
    before and the new instance does not exist. *)
Theorem value_ptr_copy_keeps_ownership s this that v :
  objs s !! that = Some v ->
  objs s !! this = None ->
  well_owned s ->
  honours_clone (m_1 v) ->
  accepts_null (deleter_init : DeleterT) ->
  match value_ptr_copy this that s with
  | Ret _ s1 =>
      well_owned s1 /\
      exists q, get this s1 = Ret q s1 /\
                (m_0 v = nullptr <-> q = nullptr) /\
                (q <> nullptr -> unowned s q)
  | Throw s1 => well_owned s1 /\ objs s1 !! this = None
  | Undef => False
  end.
Proof.
  intros Hv Hthis Hown Hhon Hnull.
  assert (Hne : this <> that) by congruence.
  destruct (decide (m_0 v = nullptr)) as [H0 | H0].
  - rewrite (value_ptr_copy_empty _ _ _ _ Hv Hne H0). split.
    + destruct s as [o h t]. by apply (well_owned_put _ _ t).
    + exists nullptr. split; [by erewrite get_at by vp_lookup |]. done.
  - destruct Hown as [He Hl]. destruct (Hl _ _ Hv H0) as [x Hx].
    pose proof (Hhon _ _ _ Hx) as Hc.
    destruct (cloner_call (m_1 v) (m_0 v) (heap s)) as [q h | h |]
      eqn:Hcall; [| | done].
    + destruct Hc as (Hq & Hfresh & ->).
      rewrite (value_ptr_copy_ret _ _ _ _ _ _ Hv Hne H0 Hcall Hq), Hnull.
      assert (Hnone : forall j vj, objs s !! j = Some vj -> m_0 vj <> q).
      { intros j vj Hj E. subst q.
        destruct (Hl _ _ Hj Hq) as [y Hy]. congruence. }
      split.
      * apply (well_owned_put _ _ (trace s)).
        -- apply (well_owned_alloc _ _ (trace s)). by destruct s.
        -- intros _. split; [rewrite lookup_insert_eq; by eexists |].
           intros j vj _ Hj. by apply (Hnone j vj).
      * exists q. split; [by erewrite get_at by vp_lookup |].
        split; [done | by intros _].
    + rewrite (value_ptr_copy_throw _ _ _ _ _ Hv Hthis H0 Hcall).
      subst h. split; [| done].
      destruct s as [o h t]. by apply (well_owned_trace _ _ t).
Qed.

End copy_properties.

(** ** The further properties at concrete instances *)

Lemma well_owned_empty {T ClonerT DeleterT} (h : gmap N T)
    (t : list (event ClonerT DeleterT)) :
  well_owned (State ∅ h t).
Proof.
  split.
  - intros i j vi vj Hi. cbn [objs] in Hi. by rewrite lookup_empty in Hi.
  - intros i vi Hi. cbn [objs] in Hi. by rewrite lookup_empty in Hi.
Qed.

Lemma owns_5_well_owned : well_owned owns_5.
Proof.
  unfold owns_5. rewrite <- insert_empty.
  apply (well_owned_put _ _ []); [apply well_owned_empty |].
  intros _. split; [by eexists |].
  intros j vj _ Hj. by rewrite lookup_empty in Hj.
Qed.

Lemma owns_5_spare_9_well_owned : well_owned owns_5_spare_9.
Proof.
  unfold owns_5_spare_9. rewrite <- insert_empty.
  apply (well_owned_put _ _ []); [apply well_owned_empty |].
  intros _. split; [by eexists |].
  intros j vj _ Hj. by rewrite lookup_empty in Hj.
Qed.

Lemma owns_nothing_well_owned : well_owned owns_nothing.
Proof.
  unfold owns_nothing. rewrite <- insert_empty.
  apply (well_owned_put _ _ []); [apply well_owned_empty | done].
Qed.

Lemma owns_two_well_owned : well_owned owns_two.
Proof.
  unfold owns_two. rewrite <- (insert_empty B).
  apply (well_owned_put _ _ []).
  - apply (well_owned_put _ _ []); [apply well_owned_empty |].
    intros _. split; [by eexists |].
    intros j vj _ Hj. by rewrite lookup_empty in Hj.
  - intros _. split; [by eexists |].
    intros j vj Hne Hj. apply lookup_insert_Some in Hj as [[_ <-] | [_ Hj]].
    + done.
    + by rewrite lookup_empty in Hj.
Qed.

Lemma swap_exchanges_and_undoes_witness :
  objs owns_two !! A = Some (int_ptr 1) /\
  objs owns_two !! B = Some (int_ptr 2) /\
  exists s1,
    swap A B owns_two = Ret tt s1 /\
    objs s1 !! A = Some (int_ptr 2) /\
    objs s1 !! B = Some (int_ptr 1) /\
    swap A B s1 = Ret tt owns_two.
Proof.
  split; [reflexivity |]. split; [reflexivity |].
  destruct (swap_exchanges_and_undoes owns_two A B (int_ptr 1) (int_ptr 2)
              eq_refl eq_refl) as (s1 & H1 & H2 & H3 & _ & _ & H6 & _).
  exists s1. done.
Defined.

Lemma swap_keeps_ownership_witness :
  objs owns_two !! A = Some (int_ptr 1) /\
  objs owns_two !! B = Some (int_ptr 2) /\
  well_owned owns_two /\
  exists s1, swap A B owns_two = Ret tt s1 /\ well_owned s1.
Proof.
  split; [reflexivity |]. split; [reflexivity |].
  split; [exact owns_two_well_owned |].
  exact (swap_keeps_ownership owns_two A B (int_ptr 1) (int_ptr 2)
           eq_refl eq_refl owns_two_well_owned).
Defined.

Lemma reset_idempotent_witness :
  objs owns_5_spare_9 !! A = Some (int_ptr 1) /\
  bind (reset A 2%N) (fun _ => reset A 2%N) owns_5_spare_9 =
    reset A 2%N owns_5_spare_9.
Proof.
  split; [reflexivity |].
  exact (reset_idempotent owns_5_spare_9 A (int_ptr 1) 2%N eq_refl).
Defined.

Lemma reset_then_destructor_witness :
  objs owns_5 !! A = Some (int_ptr 1) /\
  bind (reset A nullptr) (fun _ => destructor A) owns_5 = destructor A owns_5 /\
  destructor A owns_5 = Ret tt (State ∅ ∅ [DeleteCall DefaultDelete 1%N]).
Proof.
  split; [reflexivity |].
  destruct (reset_then_destructor owns_5 A (int_ptr 1) eq_refl)
    as (H1 & H2 & _).
  split; [exact H1 |]. rewrite (H2 ltac:(done)). vm_compute. reflexivity.
Defined.

Lemma clone_is_const_witness :
  objs owns_5 !! A = Some (int_ptr 1) /\
  exists q s1,
    clone A owns_5 = Ret q s1 /\
    objs s1 = objs owns_5 /\
    deleted (trace s1) = deleted (trace owns_5).
Proof.
  split; [reflexivity |].
  pose proof (clone_is_const owns_5 A (int_ptr 1) eq_refl) as H.
  destruct (clone A owns_5) as [q s1 | s1 |] eqn:Hc.
  - exists q, s1. destruct H as (H1 & H2 & _). done.
  - exfalso. vm_compute in Hc. discriminate Hc.
  - exfalso. vm_compute in Hc. discriminate Hc.
Defined.

Lemma constructed_policies_are_used_witness :
  1%N <> nullptr /\
  value_ptr_both B 1%N DefaultDelete DefaultClone owns_nothing =
    Ret tt (State {[ A := int_ptr nullptr; B := int_ptr 1 ]} {[ 1%N := 5%Z ]} []) /\
  destructor B
    (State (<[B := int_ptr 1]> (objs owns_nothing)) (heap owns_nothing) []) =
    Ret tt (State {[ A := int_ptr nullptr ]} ∅ [DeleteCall DefaultDelete 1%N]).
Proof.
  split; [done |].
  destruct (constructed_policies_are_used owns_nothing B 1%N DefaultClone
              DefaultDelete ltac:(done)) as (H1 & _ & _ & _ & _ & H6).
  split.
  - refine (eq_trans H1 _). vm_compute. reflexivity.
  - refine (eq_trans H6 _). vm_compute. reflexivity.
Defined.

Lemma assigned_policies_are_used_witness :
  objs owns_5 !! A = Some (int_ptr 1) /\
  1%N <> nullptr /\
  bind (set_deleter A DefaultDelete) (fun _ => destructor A) owns_5 =
    Ret tt (State ∅ ∅ [DeleteCall DefaultDelete 1%N]).
Proof.
  split; [reflexivity |]. split; [done |].
  destruct (assigned_policies_are_used owns_5 A (int_ptr 1) DefaultClone
              DefaultDelete eq_refl ltac:(done)) as (_ & H2 & _).
  rewrite H2. vm_compute. reflexivity.
Defined.

Lemma spare_is_unowned : unowned owns_5_spare_9 2%N.
Proof.
  intros j vj Hj. cbn in Hj.
  apply lookup_singleton_Some in Hj as [_ <-]. done.
Qed.

Lemma value_ptr_from_takes_ownership_witness :
  objs owns_5_spare_9 !! B = None /\
  well_owned owns_5_spare_9 /\
  is_Some (heap owns_5_spare_9 !! 2%N) /\
  unowned owns_5_spare_9 2%N /\
  exists s1,
    value_ptr_from B 2%N owns_5_spare_9 = Ret tt s1 /\
    get B s1 = Ret 2%N s1 /\
    well_owned s1.
Proof.
  split; [reflexivity |]. split; [exact owns_5_spare_9_well_owned |].
  split; [by eexists |]. split; [exact spare_is_unowned |].
  destruct (value_ptr_from_takes_ownership owns_5_spare_9 B 2%N eq_refl
              owns_5_spare_9_well_owned ltac:(by eexists) spare_is_unowned)
    as (s1 & H1 & H2 & H3 & _).
  exists s1. done.
Defined.

Lemma dereference_needs_non_empty_witness :
  objs owns_5 !! A = Some (int_ptr 1) /\
  well_owned owns_5 /\
  operator_arrow A owns_5 = Ret 1%N owns_5 /\
  operator_star A owns_5 = Ret 1%N owns_5.
Proof.
  split; [reflexivity |]. split; [exact owns_5_well_owned |].
  destruct (dereference_needs_non_empty owns_5 A (int_ptr 1) eq_refl
              owns_5_well_owned) as (H1 & H2 & _).
  split; [exact H1 | exact (H2 ltac:(done))].
Defined.

Lemma reset_keeps_ownership_witness :
  objs owns_5_spare_9 !! A = Some (int_ptr 1) /\
  well_owned owns_5_spare_9 /\
  frees (T := Z) DefaultDelete /\ accepts_null (T := Z) DefaultDelete /\
  is_Some (heap owns_5_spare_9 !! 2%N) /\ unowned owns_5_spare_9 2%N /\
  exists s1,
    reset A 2%N owns_5_spare_9 = Ret tt s1 /\
    get A s1 = Ret 2%N s1 /\
    well_owned s1 /\
    heap s1 !! 1%N = None /\
    heap s1 !! 2%N = Some 9%Z.
Proof.
  split; [reflexivity |]. split; [exact owns_5_spare_9_well_owned |].
  split; [apply default_delete_frees |].
  split; [apply default_delete_accepts_null |].
  split; [by eexists |]. split; [exact spare_is_unowned |].
  destruct (reset_keeps_ownership owns_5_spare_9 A (int_ptr 1) 2%N eq_refl
              owns_5_spare_9_well_owned
              (default_delete_frees DefaultDelete)
              (default_delete_accepts_null DefaultDelete)
              (fun _ => conj (ex_intro _ 9%Z eq_refl) spare_is_unowned))
    as (s1 & H1 & H2 & H3 & H4 & H5).
  exists s1. split; [exact H1 |]. split; [exact H2 |]. split; [exact H3 |].
  split; [exact (H4 ltac:(done) ltac:(done)) |].
  exact (H5 2%N ltac:(done)).
Defined.

Lemma release_hands_over_witness :
  objs owns_5 !! A = Some (int_ptr 1) /\
  well_owned owns_5 /\
  exists s1,
    release A owns_5 = Ret 1%N s1 /\
    well_owned s1 /\
    unowned s1 1%N /\
    heap s1 !! 1%N = Some 5%Z.
Proof.
  split; [reflexivity |]. split; [exact owns_5_well_owned |].
  destruct (release_hands_over owns_5 A (int_ptr 1) eq_refl owns_5_well_owned)
    as (s1 & H1 & H2 & H3 & H4 & _).
  exists s1. split; [exact H1 |]. split; [exact H2 |].
  split; [exact (H3 ltac:(done)) |]. by rewrite H4.
Defined.

Lemma destructor_frees_only_its_own_witness :
  objs owns_two !! A = Some (int_ptr 1) /\
  well_owned owns_two /\
  frees (T := Z) DefaultDelete /\ accepts_null (T := Z) DefaultDelete /\
  exists s1,
    destructor A owns_two = Ret tt s1 /\
    well_owned s1 /\
    heap s1 !! 1%N = None /\
    heap s1 !! 2%N = Some 9%Z.
Proof.
  split; [reflexivity |]. split; [exact owns_two_well_owned |].
  split; [apply default_delete_frees |].
  split; [apply default_delete_accepts_null |].
  destruct (destructor_frees_only_its_own owns_two A (int_ptr 1) eq_refl
              owns_two_well_owned
              (default_delete_frees DefaultDelete)
              (default_delete_accepts_null DefaultDelete))
    as (s1 & H1 & H2 & H3 & H4 & H5).
  exists s1. split; [exact H1 |]. split; [exact H3 |].
  split; [exact (H4 ltac:(done)) |].
  refine (eq_trans (H5 B (int_ptr 2) _) _); [| reflexivity].
  rewrite H2. reflexivity.
Defined.

Lemma assign_move_then_destroy_witness :
  objs owns_two !! B = Some (int_ptr 2) /\
  objs owns_two !! A = Some (int_ptr 1) /\
  B <> A /\ 1%N <> nullptr /\ 1%N <> 2%N /\
  bind (assign_move B A)
       (fun _ => bind (destructor B) (fun _ => destructor A)) owns_two =
    Ret tt (State ∅ ∅ [DeleteCall DefaultDelete 2%N;
                       DeleteCall DefaultDelete 1%N]).
Proof.
  split; [reflexivity |]. split; [reflexivity |].
  split; [done |]. split; [done |]. split; [done |].
  refine (eq_trans
            (assign_move_then_destroy owns_two B A (int_ptr 2) (int_ptr 1)
               eq_refl eq_refl ltac:(done) ltac:(done) ltac:(done)) _).
  vm_compute. reflexivity.
Defined.

Lemma assign_move_there_and_back_witness :
  objs owns_two !! B = Some (int_ptr 2) /\
  objs owns_two !! A = Some (int_ptr 1) /\
  B <> A /\ 1%N <> nullptr /\ 1%N <> 2%N /\
  exists s2,
    bind (assign_move B A) (fun _ => assign_move A B) owns_two = Ret tt s2 /\
    objs s2 !! A = Some (int_ptr 1) /\
    get B s2 = Ret nullptr s2 /\
    trace s2 = [DeleteCall DefaultDelete 2%N;
                DeleteCall DefaultDelete nullptr].
Proof.
  split; [reflexivity |]. split; [reflexivity |].
  split; [done |]. split; [done |]. split; [done |].
  exact (assign_move_there_and_back owns_two B A (int_ptr 2) (int_ptr 1)
           eq_refl eq_refl ltac:(done) ltac:(done) ltac:(done)).
Defined.

Lemma assign_move_keeps_ownership_witness :
  objs owns_two !! B = Some (int_ptr 2) /\
  objs owns_two !! A = Some (int_ptr 1) /\
  B <> A /\ well_owned owns_two /\
  frees (T := Z) DefaultDelete /\ accepts_null (T := Z) DefaultDelete /\
  exists s1,
    assign_move B A owns_two = Ret tt s1 /\
    well_owned s1 /\
    get B s1 = Ret 1%N s1 /\
    get A s1 = Ret nullptr s1 /\
    heap s1 !! 2%N = None /\
    heap s1 !! 1%N = Some 5%Z.
Proof.
  split; [reflexivity |]. split; [reflexivity |]. split; [done |].
  split; [exact owns_two_well_owned |].
  split; [apply default_delete_frees |].
  split; [apply default_delete_accepts_null |].
  destruct (assign_move_keeps_ownership owns_two B A (int_ptr 2) (int_ptr 1)
              eq_refl eq_refl ltac:(done) owns_two_well_owned
              (default_delete_frees DefaultDelete)
              (default_delete_accepts_null DefaultDelete))
    as (s1 & H1 & H2 & H3 & H4 & H5 & H6).
  exists s1. split; [exact H1 |]. split; [exact H2 |]. split; [exact H3 |].
  split; [exact H4 |]. split; [exact (H5 ltac:(done)) |].
  exact (H6 ltac:(done)).
Defined.

Lemma copy_then_destroy_both_witness :
  objs owns_5 !! A = Some (int_ptr 1) /\
  objs owns_5 !! B = None /\
  1%N <> nullptr /\
  cloner_call DefaultClone 1%N (heap owns_5) =
    CloneRet 2%N {[ 1%N := 5%Z; 2%N := 5%Z ]} /\
  2%N <> nullptr /\
  2%N <> 1%N /\
  bind (value_ptr_copy B A)
       (fun _ => bind (destructor B) (fun _ => destructor A)) owns_5 =
    Ret tt (State ∅ ∅ [CloneCall DefaultClone 1%N;
                       DeleteCall DefaultDelete nullptr;
                       DeleteCall DefaultDelete 2%N;
                       DeleteCall DefaultDelete 1%N]) /\
  NoDup [nullptr; 2%N; 1%N].
Proof.
  assert (Hcall : cloner_call DefaultClone 1%N (heap owns_5) =
                  CloneRet 2%N {[ 1%N := 5%Z; 2%N := 5%Z ]})
    by (vm_compute; reflexivity).
  split; [reflexivity |]. split; [reflexivity |]. split; [done |].
  split; [exact Hcall |]. split; [done |]. split; [done |].
  destruct (copy_then_destroy_both owns_5 B A (int_ptr 1) 2%N _
              eq_refl eq_refl ltac:(done) Hcall ltac:(done) ltac:(done))
    as (H1 & _ & H3).
  split; [| exact H3].
  refine (eq_trans H1 _). vm_compute. reflexivity.
Defined.

Lemma assign_copy_from_empty_witness :
  objs empty_and_9 !! B = Some (int_ptr 2) /\
  objs empty_and_9 !! A = Some (int_ptr nullptr) /\
  m_0 (int_ptr nullptr) = nullptr /\
  2%N <> nullptr /\
  assign_copy B A empty_and_9 =
    Ret tt (State {[ A := int_ptr nullptr; B := int_ptr nullptr ]} ∅
                  [DeleteCall DefaultDelete 2%N]).
Proof.
  split; [reflexivity |]. split; [reflexivity |]. split; [reflexivity |].
  split; [done |].
  refine (eq_trans
            (assign_copy_from_empty empty_and_9 B A (int_ptr 2)
               (int_ptr nullptr) eq_refl eq_refl eq_refl ltac:(done)) _).
  vm_compute. reflexivity.
Defined.

Lemma self_assign_copy_is_safe_witness :
  objs owns_5 !! A = Some (int_ptr 1) /\
  1%N <> nullptr /\
  heap owns_5 !! 1%N = Some 5%Z /\
  honours_clone (T := Z) DefaultClone /\
  frees (T := Z) DefaultDelete /\
  exists s1 q,
    assign_copy A A owns_5 = Ret tt s1 /\
    get A s1 = Ret q s1 /\
    q <> 1%N /\
    heap s1 !! 1%N = None /\
    bind (operator_star A) load s1 = Ret 5%Z s1.
Proof.
  split; [reflexivity |]. split; [done |]. split; [reflexivity |].
  split; [apply default_clone_honours, Z_clone_same |].
  split; [apply default_delete_frees |].
  pose proof (self_assign_copy_is_safe owns_5 A (int_ptr 1) 5%Z eq_refl
                ltac:(done) eq_refl
                (default_clone_honours DefaultClone Z_clone_same)
                (default_delete_frees DefaultDelete)) as H.
  destruct (assign_copy A A owns_5) as [[] s1 | s1 |] eqn:Hc.
  - destruct H as (q & Ho & Hq & _ & _ & Hnone & Hread).
    exists s1, q. split; [reflexivity |].
    split; [| done].
    apply (get_at _ A (int_ptr q)). rewrite Ho. apply lookup_insert_eq.
  - exfalso. vm_compute in Hc. discriminate Hc.
  - destruct H.
Defined.

Lemma assign_copy_keeps_ownership_witness :
  objs owns_two !! B = Some (int_ptr 2) /\
  objs owns_two !! A = Some (int_ptr 1) /\
  well_owned owns_two /\
  honours_clone (T := Z) DefaultClone /\
  frees (T := Z) DefaultDelete /\ accepts_null (T := Z) DefaultDelete /\
  exists s1, assign_copy B A owns_two = Ret tt s1 /\ well_owned s1.
Proof.
  split; [reflexivity |]. split; [reflexivity |].
  split; [exact owns_two_well_owned |].
  split; [apply default_clone_honours, Z_clone_same |].
  split; [apply default_delete_frees |].
  split; [apply default_delete_accepts_null |].
  pose proof (assign_copy_keeps_ownership owns_two B A (int_ptr 2) (int_ptr 1)
                eq_refl eq_refl owns_two_well_owned
                (default_clone_honours DefaultClone Z_clone_same)
                (default_delete_frees DefaultDelete)
                (default_delete_accepts_null DefaultDelete)) as H.
  destruct (assign_copy B A owns_two) as [[] s1 | s1 |] eqn:Hc.
  - exists s1. split; [reflexivity | exact H].
  - exfalso. vm_compute in Hc. discriminate Hc.
  - destruct H.
Defined.

Lemma value_ptr_copy_keeps_ownership_witness :
  objs owns_5 !! A = Some (int_ptr 1) /\
  objs owns_5 !! B = None /\
  well_owned owns_5 /\
  honours_clone (T := Z) DefaultClone /\
  accepts_null (T := Z) DefaultDelete /\
  exists s1 q,
    value_ptr_copy B A owns_5 = Ret tt s1 /\
    well_owned s1 /\
    get B s1 = Ret q s1 /\
    q <> nullptr /\ unowned owns_5 q.
Proof.
  split; [reflexivity |]. split; [reflexivity |].
  split; [exact owns_5_well_owned |].
  split; [apply default_clone_honours, Z_clone_same |].
  split; [apply default_delete_accepts_null |].
  pose proof (value_ptr_copy_keeps_ownership owns_5 B A (int_ptr 1)
                eq_refl eq_refl owns_5_well_owned
                (default_clone_honours DefaultClone Z_clone_same)
                (default_delete_accepts_null DefaultDelete)) as H.
  destruct (value_ptr_copy B A owns_5) as [[] s1 | s1 |] eqn:Hc.
  - destruct H as (Hw & q & Hg & Hiff & Hun).
    assert (Hq : q <> nullptr) by (intros E; by apply Hiff in E).
    exists s1, q. split; [reflexivity |]. split; [exact Hw |].
    split; [exact Hg |]. split; [exact Hq | exact (Hun Hq)].
  - exfalso. vm_compute in Hc. discriminate Hc.
  - destruct H.
Defined.
